(** * micro-module.h: the module lifecycle registry

    A shallow embedding of [micro-module.h] (the loader side of the
    library) and the properties of its four operations
    [micro_module_init], [micro_module_init_all], [micro_module_exit]
    and [micro_module_exit_all].

    The C code talks to the platform through [dlmopen], [dlsym],
    [dlclose], the entry points of the loaded modules, the allocator and
    the [fts] directory walker.  None of these is part of the library, so
    they are an oracle ([Platform]): a deterministic answer for every
    call given the history of effects so far.  Every call is appended to
    a trace together with its answer; every store to the linked list of
    modules is appended too, so that the trace gives the program order
    of calls and registry updates. *)

From Stdlib Require Import ZArith List String Bool Lia.
Import ListNotations.
Open Scope Z_scope.

(** ** Error codes *)

Definition MICRO_MODULE_OK                           : Z := 0.
Definition MICRO_MODULE_ERROR_IS_NULL                : Z := -1.
Definition MICRO_MODULE_ERROR_OPEN_MODULES_DIR       : Z := -2.
Definition MICRO_MODULE_ERROR_CLOSE_MODULES_DIR      : Z := -3.
Definition MICRO_MODULE_ERROR_LOCATING_INIT_SYMBOL   : Z := -4.
Definition MICRO_MODULE_ERROR_LOCATING_EXIT_SYMBOL   : Z := -5.
Definition MICRO_MODULE_ERROR_LOCATING_NAME_SYMBOL   : Z := -6.
Definition MICRO_MODULE_ERROR_OPENING_MODULE         : Z := -7.
Definition MICRO_MODULE_ERROR_CLOSING_MODULE         : Z := -8.
Definition MICRO_MODULE_ERROR_ALLOCATING_MEMORY      : Z := -9.
Definition MICRO_MODULE_ERROR_MODULE_NOT_REGISTERED  : Z := -10.
Definition MICRO_MODULE_ERROR_ARG_NULL               : Z := -11.
Definition _MICRO_MODULE_ERROR_MAX                   : Z := -12.

(** ** Types *)

(** A non-NULL [void*] returned by [dlmopen]. *)
Definition handle := positive.
(** A non-NULL code address returned by [dlsym]
    ([micro_module_init_fn], [micro_module_exit_fn]). *)
Definition fnptr := positive.
(** The opaque [void* arg] handed to every entry point. *)
Definition voidp := Z.

(** [struct MicroModuleEntry].  [name] is the C string the name symbol
    points to. *)
Record MicroModuleEntry := mkEntry {
  name      : string;
  init_fn   : fnptr;
  exit_fn   : fnptr;
  dlhandler : handle
}.

(** [struct MicroModule]; the linked list [MicroModuleList] is a list
    whose first element is the head node. *)
Record MicroModule := mkMM {
  modules           : list MicroModuleEntry;
  name_symbol       : string;
  init_fn_symbol    : string;
  exit_fn_symbol    : string;
  use_new_namespace : bool
}.

(** The [MicroModule *mm] argument: NULL, or the address of the
    loader's structure. *)
Inductive mm_ref := MM_NULL | MM_PTR.

(** The first argument of [dlmopen]. *)
Inductive Lmid := LM_ID_BASE | LM_ID_NEWLM.

(** [fts_info] of an [FTSENT] (the values of [<fts.h>]). *)
Inductive fts_info_t :=
| FTS_D | FTS_DC | FTS_DEFAULT | FTS_DNR | FTS_DOT | FTS_DP | FTS_ERR
| FTS_F | FTS_INIT | FTS_NS | FTS_NSOK | FTS_SL | FTS_SLNONE | FTS_W.

Record FTSENT := mkFTSENT {
  fts_info  : fts_info_t;
  fts_level : Z;
  fts_path  : string
}.

(** ** Effects *)

Inductive event :=
| EvDlmopen   (lmid : Lmid) (filename : string) (res : option handle)
| EvDlsymFn   (h : handle) (symbol : string) (res : option fnptr)
| EvDlsymName (h : handle) (symbol : string) (res : option string)
| EvDlclose   (h : handle) (res : Z)
| EvInitFn    (f : fnptr) (arg : voidp) (res : Z)
| EvExitFn    (f : fnptr) (arg : voidp) (res : Z)
| EvMalloc    (res : bool)
| EvFree
| EvStore     (ms : list MicroModuleEntry)
| EvFtsOpen   (dir : string) (res : option (list FTSENT))
| EvFtsSetSkip (path : string)
| EvFtsClose  (res : Z).

Definition trace := list event.

(** What the platform answers to each call, given the effects so far.
    [dlsym] is used twice as a code address and once as a [char*]; a
    NULL result is [None].  [fts_open_result] is the sequence of entries
    the successive [fts_read] calls return before NULL. *)
Record Platform := mkPlatform {
  dlmopen_result    : trace -> Lmid -> string -> option handle;
  dlsym_fn_result   : trace -> handle -> string -> option fnptr;
  dlsym_name_result : trace -> handle -> string -> option string;
  dlclose_result    : trace -> handle -> Z;
  init_fn_result    : trace -> fnptr -> voidp -> Z;
  exit_fn_result    : trace -> fnptr -> voidp -> Z;
  malloc_result     : trace -> bool;
  fts_open_result   : trace -> string -> option (list FTSENT);
  fts_close_result  : trace -> Z
}.

(** The loader's structure and the effects so far. *)
Record State := mkState {
  st_mm    : MicroModule;
  st_trace : trace
}.

(** ** The state monad of the embedding *)

Definition M (A : Type) : Type := State -> A * State.

Definition ret {A} (a : A) : M A := fun s => (a, s).

Definition bind {A B} (c : M A) (k : A -> M B) : M B :=
  fun s => let (a, s') := c s in k a s'.

Notation "x <- c ;; k" := (bind c (fun x => k))
  (at level 61, c at next level, right associativity).
Notation "c ;;; k" := (bind c (fun _ => k))
  (at level 61, right associativity).

Definition get {A} (field : MicroModule -> A) : M A :=
  fun s => (field (st_mm s), s).

Definition log (e : event) (s : State) : State :=
  mkState (st_mm s) (st_trace s ++ [e]).

Definition with_modules (ms : list MicroModuleEntry) (m : MicroModule)
  : MicroModule :=
  mkMM ms (name_symbol m) (init_fn_symbol m) (exit_fn_symbol m)
       (use_new_namespace m).

(** A store that changes the linked list: afterwards the list is [ms]. *)
Definition set_modules (ms : list MicroModuleEntry) : M unit :=
  fun s => (tt, mkState (with_modules ms (st_mm s))
                        (st_trace s ++ [EvStore ms])).

Section Loader.

Variable W : Platform.

Definition dlmopen (lmid : Lmid) (filename : string) : M (option handle) :=
  fun s => let r := dlmopen_result W (st_trace s) lmid filename in
           (r, log (EvDlmopen lmid filename r) s).

Definition dlsym_fn (h : handle) (symbol : string) : M (option fnptr) :=
  fun s => let r := dlsym_fn_result W (st_trace s) h symbol in
           (r, log (EvDlsymFn h symbol r) s).

Definition dlsym_name (h : handle) (symbol : string) : M (option string) :=
  fun s => let r := dlsym_name_result W (st_trace s) h symbol in
           (r, log (EvDlsymName h symbol r) s).

Definition dlclose (h : handle) : M Z :=
  fun s => let r := dlclose_result W (st_trace s) h in
           (r, log (EvDlclose h r) s).

Definition call_init_fn (f : fnptr) (arg : voidp) : M Z :=
  fun s => let r := init_fn_result W (st_trace s) f arg in
           (r, log (EvInitFn f arg r) s).

Definition call_exit_fn (f : fnptr) (arg : voidp) : M Z :=
  fun s => let r := exit_fn_result W (st_trace s) f arg in
           (r, log (EvExitFn f arg r) s).

Definition MICRO_MODULE_MALLOC : M bool :=
  fun s => let r := malloc_result W (st_trace s) in
           (r, log (EvMalloc r) s).

Definition MICRO_MODULE_FREE : M unit :=
  fun s => (tt, log EvFree s).

Definition fts_open (dir : string) : M (option (list FTSENT)) :=
  fun s => let r := fts_open_result W (st_trace s) dir in
           (r, log (EvFtsOpen dir r) s).

Definition fts_set_skip (path : string) : M unit :=
  fun s => (tt, log (EvFtsSetSkip path) s).

Definition fts_close : M Z :=
  fun s => let r := fts_close_result W (st_trace s) in
           (r, log (EvFtsClose r) s).

(** ** micro_module_setup *)

Definition micro_module_setup (name_symbol init_fn_symbol exit_fn_symbol : string)
           (use_new_namespace : bool) : MicroModule :=
  mkMM [] name_symbol init_fn_symbol exit_fn_symbol use_new_namespace.

(** ** micro_module_init *)

(** The body of [micro_module_init] in its three consecutive parts:
    [init_load] (open the file and resolve the three symbols),
    [init_register] (replace the node of that name or push a new one) and
    [init_call] (call the init function). *)

(** From [dlmopen] to the last [dlsym]: the error the function returns
    with, or the entry [module] with its four fields set. *)
Definition init_load (filename : string) : M (Z + MicroModuleEntry) :=
  ns <- get use_new_namespace ;;
  dlh <- (if ns then dlmopen LM_ID_NEWLM filename
          else dlmopen LM_ID_BASE filename) ;;
  match dlh with
  | None => ret (inl MICRO_MODULE_ERROR_OPENING_MODULE)
  | Some h =>
    isym <- get init_fn_symbol ;;
    fi <- dlsym_fn h isym ;;
    match fi with
    | None =>
      dlclose h ;;; ret (inl MICRO_MODULE_ERROR_LOCATING_INIT_SYMBOL)
    | Some fi =>
      esym <- get exit_fn_symbol ;;
      fe <- dlsym_fn h esym ;;
      match fe with
      | None =>
        dlclose h ;;; ret (inl MICRO_MODULE_ERROR_LOCATING_EXIT_SYMBOL)
      | Some fe =>
        nsym <- get name_symbol ;;
        nm <- dlsym_name h nsym ;;
        match nm with
        | None =>
          dlclose h ;;; ret (inl MICRO_MODULE_ERROR_LOCATING_NAME_SYMBOL)
        | Some nm => ret (inr (mkEntry nm fi fe h))
        end
      end
    end
  end.

(** How the [while (it)] loop of [micro_module_init] is left: by a
    [return], or at its end (or [break]) with the flag [found]. *)
Inductive scan :=
| ScanReturn (err : Z)
| ScanEnd (found : bool).

(** The loop "Check if module was already registered".  [it] is the
    cursor with the nodes after it, [prev] the nodes before it. *)
Fixpoint init_scan (module : MicroModuleEntry) (arg : voidp)
         (prev it : list MicroModuleEntry) : M scan :=
  match it with
  | [] => ret (ScanEnd false)
  | e :: next =>
    if String.eqb (name e) (name module) then
      call_exit_fn (exit_fn e) arg ;;;
      rc <- dlclose (dlhandler e) ;;
      if negb (rc =? 0) then
        dlclose (dlhandler module) ;;;
        ret (ScanReturn MICRO_MODULE_ERROR_CLOSING_MODULE)
      else
        set_modules (prev ++ module :: next) ;;;
        ret (ScanEnd true)
    else init_scan module arg (prev ++ [e]) next
  end.

(** "Call the function". *)
Definition init_call (module : MicroModuleEntry) (arg : voidp) : M Z :=
  err <- call_init_fn (init_fn module) arg ;;
  if negb (err =? 0) then ret err else ret MICRO_MODULE_OK.

(** From "Check if module was already registered" to the end, once the
    three symbols are resolved. *)
Definition init_register (module : MicroModuleEntry) (arg : voidp) : M Z :=
  ms <- get modules ;;
  r <- init_scan module arg [] ms ;;
  match r with
  | ScanReturn err => ret err
  | ScanEnd true => init_call module arg
  | ScanEnd false =>
    new_module <- MICRO_MODULE_MALLOC ;;
    if negb new_module then ret MICRO_MODULE_ERROR_ALLOCATING_MEMORY
    else
      ms <- get modules ;;
      match ms with
      | [] => set_modules [module]
      | _ :: _ => set_modules (module :: ms)
      end ;;;
      init_call module arg
  end.

Definition micro_module_init (mm : mm_ref) (filename : string) (arg : voidp)
  : M Z :=
  match mm with
  | MM_NULL => ret MICRO_MODULE_ERROR_IS_NULL
  | MM_PTR =>
    loaded <- init_load filename ;;
    match loaded with
    | inl err => ret err
    | inr module => init_register module arg
    end
  end.

(** ** micro_module_exit *)

(** The second loop of [micro_module_exit]; [prev] are the nodes before
    the cursor ([prev->next = it->next] unlinks the cursor). *)
Fixpoint exit_scan (module_name : string) (arg : voidp)
         (prev it : list MicroModuleEntry) : M Z :=
  match it with
  | [] => ret MICRO_MODULE_ERROR_MODULE_NOT_REGISTERED
  | e :: next =>
    if String.eqb (name e) module_name then
      call_exit_fn (exit_fn e) arg ;;;
      rc <- dlclose (dlhandler e) ;;
      if negb (rc =? 0) then ret MICRO_MODULE_ERROR_CLOSING_MODULE
      else
        set_modules (prev ++ next) ;;;
        MICRO_MODULE_FREE ;;;
        ret MICRO_MODULE_OK
    else exit_scan module_name arg (prev ++ [e]) next
  end.

Definition micro_module_exit (mm : mm_ref) (module_name : option string)
           (arg : voidp) : M Z :=
  match mm with
  | MM_NULL => ret MICRO_MODULE_ERROR_IS_NULL
  | MM_PTR =>
    ms <- get modules ;;
    match ms with
    | [] => ret MICRO_MODULE_ERROR_MODULE_NOT_REGISTERED
    | head :: next =>
      match module_name with
      | None => ret MICRO_MODULE_ERROR_ARG_NULL
      | Some module_name =>
        if String.eqb (name head) module_name then
          call_exit_fn (exit_fn head) arg ;;;
          rc <- dlclose (dlhandler head) ;;
          if negb (rc =? 0) then ret MICRO_MODULE_ERROR_CLOSING_MODULE
          else
            set_modules next ;;;
            MICRO_MODULE_FREE ;;;
            ret MICRO_MODULE_OK
        else exit_scan module_name arg [] (head :: next)
      end
    end
  end.

(** ** micro_module_exit_all *)

(** The loop of [micro_module_exit_all].  The cursor [it] walks the
    nodes that were linked when the call began ([next] is read before
    the node is unlinked and freed). *)
Fixpoint exit_all_loop (arg : voidp) (it : list MicroModuleEntry) : M Z :=
  match it with
  | [] => ret MICRO_MODULE_OK
  | e :: next =>
    err <- micro_module_exit MM_PTR (Some (name e)) arg ;;
    if negb (err =? MICRO_MODULE_OK) then ret err
    else exit_all_loop arg next
  end.

Definition micro_module_exit_all (mm : mm_ref) (arg : voidp) : M Z :=
  match mm with
  | MM_NULL => ret MICRO_MODULE_ERROR_IS_NULL
  | MM_PTR =>
    it <- get modules ;;
    err <- exit_all_loop arg it ;;
    if negb (err =? MICRO_MODULE_OK) then ret err
    else
      set_modules [] ;;;
      ret MICRO_MODULE_OK
  end.

(** ** micro_module_init_all *)

(** The [while ((file_entry = fts_read(files)))] loop over the entries
    the walker yields; the result is [err] at the label [exit]. *)
Fixpoint init_all_loop (arg : voidp) (files : list FTSENT) : M Z :=
  match files with
  | [] => ret MICRO_MODULE_OK
  | file_entry :: rest =>
    match fts_info file_entry with
    | FTS_D =>
      if fts_level file_entry =? 0 then init_all_loop arg rest
      else fts_set_skip (fts_path file_entry) ;;; init_all_loop arg rest
    | FTS_F | FTS_SL | FTS_DEFAULT =>
      if fts_level file_entry =? 1 then
        err <- micro_module_init MM_PTR (fts_path file_entry) arg ;;
        if negb (err =? MICRO_MODULE_OK) then ret err
        else init_all_loop arg rest
      else init_all_loop arg rest
    | _ => init_all_loop arg rest
    end
  end.

Definition micro_module_init_all (mm : mm_ref) (modules_dir : string)
           (arg : voidp) : M Z :=
  match mm with
  | MM_NULL => ret MICRO_MODULE_ERROR_IS_NULL
  | MM_PTR =>
    files <- fts_open modules_dir ;;
    match files with
    | None => ret MICRO_MODULE_ERROR_OPEN_MODULES_DIR
    | Some entries =>
      err <- init_all_loop arg entries ;;
      rc <- fts_close ;;
      if (rc <? 0) && (err =? MICRO_MODULE_OK)
      then ret MICRO_MODULE_ERROR_CLOSE_MODULES_DIR
      else ret err
    end
  end.

End Loader.

(** ** Vocabulary of the statements *)

Definition names (ms : list MicroModuleEntry) : list string := map name ms.

(** The first node of the list whose name is [n] ([strcmp(...) == 0]). *)
Definition find_module (n : string) (ms : list MicroModuleEntry)
  : option MicroModuleEntry :=
  find (fun e => String.eqb (name e) n) ms.

(** Number of nodes registered under the name [n]. *)
Definition count_name (n : string) (ms : list MicroModuleEntry) : nat :=
  List.length (filter (fun e => String.eqb (name e) n) ms).

Definition registry (s : State) : list MicroModuleEntry := modules (st_mm s).

(** The registry invariant: no two nodes carry the same name. *)
Definition unique_names (s : State) : Prop := NoDup (names (registry s)).

(** Tearing an entry down: its exit entry point, then [dlclose] of its
    handle, as the three places of the code that unload an entry do. *)
Definition teardown (W : Platform) (e : MicroModuleEntry) (arg : voidp) : M Z :=
  call_exit_fn W (exit_fn e) arg ;;; dlclose W (dlhandler e).

(** The namespace argument [micro_module_init] gives to [dlmopen]. *)
Definition lmid_of (m : MicroModule) : Lmid :=
  if use_new_namespace m then LM_ID_NEWLM else LM_ID_BASE.

(** The calls by which [filename] is opened and resolved to [module]. *)
Definition load_events (m : MicroModule) (filename : string)
           (module : MicroModuleEntry) : trace :=
  [ EvDlmopen (lmid_of m) filename (Some (dlhandler module));
    EvDlsymFn (dlhandler module) (init_fn_symbol m) (Some (init_fn module));
    EvDlsymFn (dlhandler module) (exit_fn_symbol m) (Some (exit_fn module));
    EvDlsymName (dlhandler module) (name_symbol m) (Some (name module)) ].

Definition is_dlsym (e : event) : bool :=
  match e with
  | EvDlsymFn _ _ _ | EvDlsymName _ _ _ => true
  | _ => false
  end.

Definition is_store (e : event) : bool :=
  match e with
  | EvStore _ => true
  | _ => false
  end.

(** A store of a list with unique names (any other event qualifies). *)
Definition store_unique (e : event) : Prop :=
  match e with
  | EvStore ms => NoDup (names ms)
  | _ => True
  end.

(** From [s] to [s'] the names stay unique: in [s'], and in every list
    stored on the way. *)
Definition keeps_unique (s s' : State) : Prop :=
  unique_names s' /\
  exists t, st_trace s' = st_trace s ++ t /\ Forall store_unique t.

(** What [micro_module_init] may do to the list of names: nothing, or
    put a name that was not there in front. *)
Definition replaced_or_pushed (ms ms' : list MicroModuleEntry) : Prop :=
  names ms' = names ms \/
  exists n, ~ In n (names ms) /\ names ms' = n :: names ms.

(** The entries [micro_module_init_all] hands to [micro_module_init]:
    regular files, symbolic links and [FTS_DEFAULT] entries at level 1. *)
Definition is_candidate (fe : FTSENT) : bool :=
  match fts_info fe with
  | FTS_F | FTS_SL | FTS_DEFAULT => fts_level fe =? 1
  | _ => false
  end.

(** The directories below the top one, which are skipped. *)
Definition is_skipped_dir (fe : FTSENT) : bool :=
  match fts_info fe with
  | FTS_D => negb (fts_level fe =? 0)
  | _ => false
  end.

(** The candidate paths of a walk, in the order of the walk. *)
Definition candidates (entries : list FTSENT) : list string :=
  map fts_path (filter is_candidate entries).

(** The files a trace shows an attempt to load, in order: one [dlmopen]
    per call of [micro_module_init]. *)
Fixpoint attempts (t : trace) : list string :=
  match t with
  | [] => []
  | EvDlmopen _ filename _ :: t' => filename :: attempts t'
  | _ :: t' => attempts t'
  end.

(** From [s] to [s'] the files [l] were attempted, in this order. *)
Definition attempted (s s' : State) (l : list string) : Prop :=
  exists t, st_trace s' = st_trace s ++ t /\ attempts t = l.







(** What the dynamic loader guarantees about the modules that are
    registered in [s]: a handle stands for one loaded object, whose symbols
    do not change while it is loaded.  Whenever the three configured symbols
    are looked up in the handle that a node holds, both functions are found
    and the name symbol is the node's name. *)
Definition symbols_stable (W : Platform) (s : State) : Prop :=
  forall e t,
    In e (registry s) ->
    dlsym_fn_result W t (dlhandler e) (init_fn_symbol (st_mm s)) <> None /\
    dlsym_fn_result W t (dlhandler e) (exit_fn_symbol (st_mm s)) <> None /\
    dlsym_name_result W t (dlhandler e) (name_symbol (st_mm s))
    = Some (name e).

(** A platform on which what [dlsym] finds depends on the handle and the
    symbol only, not on what happened before. *)
Definition symbols_fixed (W : Platform) : Prop :=
  forall t t' h symbol,
    dlsym_fn_result W t h symbol = dlsym_fn_result W t' h symbol /\
    dlsym_name_result W t h symbol = dlsym_name_result W t' h symbol.

(** The states a loader gets into: it sets its structure up and then
    calls the four operations, in any order and with any arguments. *)
Inductive reachable (W : Platform) : State -> Prop :=
| reach_setup a b c d :
    reachable W (mkState (micro_module_setup a b c d) [])
| reach_init s mm filename arg :
    reachable W s ->
    reachable W (snd (micro_module_init W mm filename arg s))
| reach_init_all s mm dir arg :
    reachable W s ->
    reachable W (snd (micro_module_init_all W mm dir arg s))
| reach_exit s mm module_name arg :
    reachable W s ->
    reachable W (snd (micro_module_exit W mm module_name arg s))
| reach_exit_all s mm arg :
    reachable W s ->
    reachable W (snd (micro_module_exit_all W mm arg s)).

(** What [micro_module_exit] may do to the list: nothing, or unlink one
    node. *)
Definition removed_at_most_one (ms ms' : list MicroModuleEntry) : Prop :=
  ms' = ms \/ exists l1 e l2, ms = l1 ++ e :: l2 /\ ms' = l1 ++ l2.

(** ** A concrete platform

    Three plugin files in the directory [plugins].  [a.so] and [c.so]
    export the three symbols, [b.so] has no init symbol.  The init function
    of [c.so] returns 5.  The handle 7 cannot be closed. *)

Definition demo_A : FTSENT := mkFTSENT FTS_F 1 "plugins/a.so".
Definition demo_B : FTSENT := mkFTSENT FTS_F 1 "plugins/b.so".
Definition demo_C : FTSENT := mkFTSENT FTS_SL 1 "plugins/c.so".

Definition demo_platform : Platform := {|
  dlmopen_result := fun _ _ filename =>
    if String.eqb filename "plugins/a.so" then Some 1%positive
    else if String.eqb filename "plugins/b.so" then Some 2%positive
    else if String.eqb filename "plugins/c.so" then Some 3%positive
    else None;
  dlsym_fn_result := fun _ h symbol =>
    if String.eqb symbol "micro_module_init" then
      match h with
      | 1%positive => Some 11%positive
      | 3%positive => Some 31%positive
      | _ => None
      end
    else if String.eqb symbol "micro_module_exit" then
      match h with
      | 1%positive => Some 12%positive
      | 2%positive => Some 22%positive
      | 3%positive => Some 32%positive
      | _ => None
      end
    else None;
  dlsym_name_result := fun _ h symbol =>
    if String.eqb symbol "micro_module_name" then
      match h with
      | 1%positive => Some "alpha"%string
      | 2%positive => Some "beta"%string
      | 3%positive => Some "gamma"%string
      | _ => None
      end
    else None;
  dlclose_result := fun _ h => if Pos.eqb h 7 then -1 else 0;
  init_fn_result := fun _ f _ => if Pos.eqb f 31 then 5 else 0;
  exit_fn_result := fun _ _ _ => 0;
  malloc_result := fun _ => true;
  fts_open_result := fun _ dir =>
    if String.eqb dir "plugins" then Some [demo_A; demo_B; demo_C] else None;
  fts_close_result := fun _ => 0
|}.

Definition demo_mm : MicroModule :=
  micro_module_setup "micro_module_name" "micro_module_init"
                     "micro_module_exit" true.

(** Nothing loaded. *)
Definition demo_empty : State := mkState demo_mm [].

(** An earlier [alpha] is registered; its handle closes. *)
Definition demo_old_alpha : MicroModuleEntry :=
  mkEntry "alpha" 91%positive 92%positive 9%positive.
Definition demo_loaded : State :=
  mkState (with_modules [demo_old_alpha] demo_mm) [].

(** An earlier [alpha] is registered; its handle does not close. *)
Definition demo_stuck_alpha : MicroModuleEntry :=
  mkEntry "alpha" 71%positive 72%positive 7%positive.
Definition demo_stuck : State :=
  mkState (with_modules [demo_stuck_alpha] demo_mm) [].

(** The base namespace, where opening a file that is loaded gives the
    handle it has: [plugins/a.so] is always the handle 7, which resolves to
    the entry points of [demo_stuck_alpha] and does not close. *)
Definition demo_shared : Platform := {|
  dlmopen_result := fun _ _ filename =>
    if String.eqb filename "plugins/a.so" then Some 7%positive else None;
  dlsym_fn_result := fun _ h symbol =>
    if Pos.eqb h 7 then
      if String.eqb symbol "micro_module_init" then Some 71%positive
      else if String.eqb symbol "micro_module_exit" then Some 72%positive
      else None
    else None;
  dlsym_name_result := fun _ h symbol =>
    if Pos.eqb h 7 && String.eqb symbol "micro_module_name"
    then Some "alpha"%string else None;
  dlclose_result := fun _ _ => -1;
  init_fn_result := fun _ _ _ => 0;
  exit_fn_result := fun _ _ _ => 0;
  malloc_result := fun _ => true;
  fts_open_result := fun _ _ => None;
  fts_close_result := fun _ => 0
|}.

Definition demo_base_mm : MicroModule :=
  micro_module_setup "micro_module_name" "micro_module_init"
                     "micro_module_exit" false.

(** [alpha] is registered from [plugins/a.so] in the base namespace. *)
Definition demo_base : State :=
  mkState (with_modules [demo_stuck_alpha] demo_base_mm) [].

(** Three modules are registered, [gamma] at the head. *)
Definition demo_gamma : MicroModuleEntry :=
  mkEntry "gamma" 31%positive 32%positive 3%positive.
Definition demo_beta : MicroModuleEntry :=
  mkEntry "beta" 21%positive 22%positive 2%positive.
Definition demo_three : State :=
  mkState (with_modules [demo_gamma; demo_beta; demo_old_alpha] demo_mm) [].

(** Two traces that end differently are different. *)
Ltac last_event H :=
  repeat rewrite app_comm_cons in H; repeat rewrite app_assoc in H;
  apply app_inj_tail in H; destruct H as [_ H]; try discriminate H.

(** ** What a trace shows *)

(** The exit functions called, in order. *)
Fixpoint exit_calls (t : trace) : list fnptr :=
  match t with
  | [] => []
  | EvExitFn f _ _ :: t' => f :: exit_calls t'
  | _ :: t' => exit_calls t'
  end.

(** The init functions called, each with what it returned. *)
Fixpoint init_calls (t : trace) : list (fnptr * Z) :=
  match t with
  | [] => []
  | EvInitFn f _ res :: t' => (f, res) :: init_calls t'
  | _ :: t' => init_calls t'
  end.

(** The handles [dlclose] was called on, each with what it returned. *)
Fixpoint closes (t : trace) : list (handle * Z) :=
  match t with
  | [] => []
  | EvDlclose h res :: t' => (h, res) :: closes t'
  | _ :: t' => closes t'
  end.

(** The nodes allocated ([malloc] did not return NULL). *)
Fixpoint mallocs (t : trace) : nat :=
  match t with
  | [] => 0%nat
  | EvMalloc true :: t' => S (mallocs t')
  | _ :: t' => mallocs t'
  end.

(** The nodes freed. *)
Fixpoint frees (t : trace) : nat :=
  match t with
  | [] => 0%nat
  | EvFree :: t' => S (frees t')
  | _ :: t' => frees t'
  end.

(** The paths [fts_set(..., FTS_SKIP)] was called on. *)
Fixpoint skips (t : trace) : list string :=
  match t with
  | [] => []
  | EvFtsSetSkip path :: t' => path :: skips t'
  | _ :: t' => skips t'
  end.

(** [fts_open] and [fts_close]. *)
Definition is_walker (e : event) : bool :=
  match e with
  | EvFtsOpen _ _ | EvFtsClose _ => true
  | _ => false
  end.

(** A [dlmopen] or [dlsym] that returned NULL. *)
Definition is_null_answer (e : event) : bool :=
  match e with
  | EvDlmopen _ _ None | EvDlsymFn _ _ None | EvDlsymName _ _ None => true
  | _ => false
  end.

(** A call into the platform made with the configuration [c]: [dlmopen]
    in the namespace of the flag, [dlsym] of a configured symbol. *)
Definition uses_config (c : MicroModule) (e : event) : Prop :=
  match e with
  | EvDlmopen lmid _ _ => lmid = lmid_of c
  | EvDlsymFn _ symbol _ => symbol = init_fn_symbol c \/ symbol = exit_fn_symbol c
  | EvDlsymName _ symbol _ => symbol = name_symbol c
  | _ => True
  end.

Definition same_config (c c' : MicroModule) : Prop :=
  name_symbol c' = name_symbol c /\ init_fn_symbol c' = init_fn_symbol c /\
  exit_fn_symbol c' = exit_fn_symbol c /\
  use_new_namespace c' = use_new_namespace c.

(** From [s] to [s'] the configuration is the same and every call into
    the platform was made with it. *)
Definition config_kept (s s' : State) : Prop :=
  same_config (st_mm s) (st_mm s') /\
  exists t, st_trace s' = st_trace s ++ t /\ Forall (uses_config (st_mm s)) t.

(** From [s] to [s'] every node allocated is in the list or was freed:
    the list grew by the nodes allocated less the nodes freed. *)
Definition nodes_balanced (s s' : State) : Prop :=
  exists t, st_trace s' = st_trace s ++ t /\
            (List.length (registry s') + frees t
             = List.length (registry s) + mallocs t)%nat.

(** ** The example loader and its module

    [example_modules/example_module2.c]: the name symbol, and the two
    entry points, which print one line each on the standard output and
    return 0. *)

Definition LF : string := String (Ascii.ascii_of_nat 10) EmptyString.

Definition example_module2_name : string := "example_module2".

Definition hello_message (stdout : list string) : list string :=
  stdout ++ [("Hello from module 2" ++ LF)%string].

Definition bye_message (stdout : list string) : list string :=
  stdout ++ [("Bye from module 2" ++ LF)%string].

Definition example_module2_init (arg : voidp) (stdout : list string)
  : Z * list string :=
  (0, hello_message stdout).

Definition example_module2_exit (arg : voidp) (stdout : list string)
  : Z * list string :=
  (0, bye_message stdout).

(** [example.c].  [main] either returns, or stops at the first of its four
    assertions that does not hold.  NULL is 0. *)
Inductive main_result :=
| MainReturned (status : Z)
| AssertionFailed (which : nat).

Definition main (W : Platform) : main_result * State :=
  let mm := micro_module_setup "micro_module_name" "micro_module_init"
                               "micro_module_exit" true in
  let (e1, s1) :=
      micro_module_init_all W MM_PTR "./example_modules/compiled" 0
                            (mkState mm []) in
  if negb (e1 =? MICRO_MODULE_OK) then (AssertionFailed 1, s1) else
  let (e2, s2) :=
      micro_module_init W MM_PTR
                        "./example_modules/compiled/example_module1.so" 0 s1 in
  if negb (e2 =? MICRO_MODULE_OK) then (AssertionFailed 2, s2) else
  let (e3, s3) :=
      micro_module_exit W MM_PTR (Some "example_module2"%string) 0 s2 in
  if negb (e3 =? MICRO_MODULE_OK) then (AssertionFailed 3, s3) else
  let (e4, s4) := micro_module_exit_all W MM_PTR 0 s3 in
  if negb (e4 =? MICRO_MODULE_OK) then (AssertionFailed 4, s4) else
  (MainReturned 0, s4).

(** What [main] needs from the platform.  The file opens whenever it is
    asked for and its image has the three symbols of [main]'s setup. *)
Definition exports_symbols (W : Platform) (filename : string) : Prop :=
  forall tr lmid,
  exists h,
    dlmopen_result W tr lmid filename = Some h /\
    forall tr',
      dlsym_fn_result W tr' h "micro_module_init" <> None /\
      dlsym_fn_result W tr' h "micro_module_exit" <> None /\
      dlsym_name_result W tr' h "micro_module_name" <> None.

(** The name symbol of the file is the string [n]. *)
Definition names_itself (W : Platform) (filename n : string) : Prop :=
  forall tr lmid h tr',
    dlmopen_result W tr lmid filename = Some h ->
    dlsym_name_result W tr' h "micro_module_name" = Some n.

(** Entry points return 0, handles close, memory and the walker do not
    fail. *)
Definition never_fails (W : Platform) : Prop :=
  (forall tr f a, init_fn_result W tr f a = 0) /\
  (forall tr h, dlclose_result W tr h = 0) /\
  (forall tr, malloc_result W tr = true) /\
  (forall tr, 0 <= fts_close_result W tr).

(** The symbols of [main]'s setup. *)
Definition default_symbols (c : MicroModule) : Prop :=
  name_symbol c = "micro_module_name"%string /\
  init_fn_symbol c = "micro_module_init"%string /\
  exit_fn_symbol c = "micro_module_exit"%string.

(** A platform for [main]: the directory holds [example_module1.so] and
    [example_module2.so]; the entry points of the second are those of
    [example_module2.c]. *)
Definition example_platform : Platform := {|
  dlmopen_result := fun _ _ filename =>
    if String.eqb filename "./example_modules/compiled/example_module1.so"
    then Some 1%positive
    else if String.eqb filename "./example_modules/compiled/example_module2.so"
    then Some 2%positive
    else None;
  dlsym_fn_result := fun _ h symbol =>
    if String.eqb symbol "micro_module_init" then Some (h~0)%positive
    else if String.eqb symbol "micro_module_exit" then Some (h~1)%positive
    else None;
  dlsym_name_result := fun _ h symbol =>
    if String.eqb symbol "micro_module_name" then
      match h with
      | 2%positive => Some example_module2_name
      | _ => Some "example_module1"%string
      end
    else None;
  dlclose_result := fun _ _ => 0;
  init_fn_result := fun _ f a =>
    if Pos.eqb f 4 then fst (example_module2_init a []) else 0;
  exit_fn_result := fun _ f a =>
    if Pos.eqb f 5 then fst (example_module2_exit a []) else 0;
  malloc_result := fun _ => true;
  fts_open_result := fun _ dir =>
    if String.eqb dir "./example_modules/compiled" then
      Some [ mkFTSENT FTS_D 0 "./example_modules/compiled";
             mkFTSENT FTS_F 1 "./example_modules/compiled/example_module1.so";
             mkFTSENT FTS_F 1 "./example_modules/compiled/example_module2.so";
             mkFTSENT FTS_DP 0 "./example_modules/compiled" ]
    else None;
  fts_close_result := fun _ => 0
|}.

(** The concrete platform of above, out of memory. *)
Definition demo_no_memory : Platform :=
  mkPlatform (dlmopen_result demo_platform) (dlsym_fn_result demo_platform)
             (dlsym_name_result demo_platform) (dlclose_result demo_platform)
             (init_fn_result demo_platform) (exit_fn_result demo_platform)
             (fun _ => false)
             (fts_open_result demo_platform) (fts_close_result demo_platform).

(** The same with a directory [plugins] that holds two sub-directories
    and a file below one of them, and a walker that does not close. *)
Definition demo_subdirs_entries : list FTSENT :=
  [ mkFTSENT FTS_D 0 "plugins";
    mkFTSENT FTS_D 1 "plugins/old";
    mkFTSENT FTS_D 1 "plugins/new";
    mkFTSENT FTS_F 2 "plugins/new/a.so";
    mkFTSENT FTS_DP 0 "plugins" ].

Definition demo_subdirs : Platform :=
  mkPlatform (dlmopen_result demo_platform) (dlsym_fn_result demo_platform)
             (dlsym_name_result demo_platform) (dlclose_result demo_platform)
             (init_fn_result demo_platform) (exit_fn_result demo_platform)
             (malloc_result demo_platform)
             (fun _ _ => Some demo_subdirs_entries)
             (fun _ => -1).

(** ** The ways the two single operations end

    [init_outcome c filename arg r c' t]: a call of [micro_module_init] on
    the structure [c] returns [r], leaves the structure [c'] and makes the
    calls and stores [t]. *)
Inductive init_outcome (c : MicroModule) (filename : string) (arg : voidp)
  : Z -> MicroModule -> trace -> Prop :=
| InitNotOpened :
    init_outcome c filename arg MICRO_MODULE_ERROR_OPENING_MODULE c
      [EvDlmopen (lmid_of c) filename None]
| InitNoInitSymbol h rc :
    init_outcome c filename arg MICRO_MODULE_ERROR_LOCATING_INIT_SYMBOL c
      [EvDlmopen (lmid_of c) filename (Some h);
       EvDlsymFn h (init_fn_symbol c) None;
       EvDlclose h rc]
| InitNoExitSymbol h fi rc :
    init_outcome c filename arg MICRO_MODULE_ERROR_LOCATING_EXIT_SYMBOL c
      [EvDlmopen (lmid_of c) filename (Some h);
       EvDlsymFn h (init_fn_symbol c) (Some fi);
       EvDlsymFn h (exit_fn_symbol c) None;
       EvDlclose h rc]
| InitNoNameSymbol h fi fe rc :
    init_outcome c filename arg MICRO_MODULE_ERROR_LOCATING_NAME_SYMBOL c
      [EvDlmopen (lmid_of c) filename (Some h);
       EvDlsymFn h (init_fn_symbol c) (Some fi);
       EvDlsymFn h (exit_fn_symbol c) (Some fe);
       EvDlsymName h (name_symbol c) None;
       EvDlclose h rc]
| InitOldNotClosed m old l1 l2 rx rc rn :
    modules c = l1 ++ old :: l2 -> find_module (name m) l1 = None ->
    name old = name m -> rc <> 0 ->
    init_outcome c filename arg MICRO_MODULE_ERROR_CLOSING_MODULE c
      (load_events c filename m
       ++ [EvExitFn (exit_fn old) arg rx; EvDlclose (dlhandler old) rc;
           EvDlclose (dlhandler m) rn])
| InitReplaced m old l1 l2 rx v :
    modules c = l1 ++ old :: l2 -> find_module (name m) l1 = None ->
    name old = name m ->
    init_outcome c filename arg v (with_modules (l1 ++ m :: l2) c)
      (load_events c filename m
       ++ [EvExitFn (exit_fn old) arg rx; EvDlclose (dlhandler old) 0;
           EvStore (l1 ++ m :: l2); EvInitFn (init_fn m) arg v])
| InitNoMemory m :
    find_module (name m) (modules c) = None ->
    init_outcome c filename arg MICRO_MODULE_ERROR_ALLOCATING_MEMORY c
      (load_events c filename m ++ [EvMalloc false])
| InitPushed m v :
    find_module (name m) (modules c) = None ->
    init_outcome c filename arg v (with_modules (m :: modules c) c)
      (load_events c filename m
       ++ [EvMalloc true; EvStore (m :: modules c);
           EvInitFn (init_fn m) arg v]).

(** The same for [micro_module_exit]. *)
Inductive exit_outcome (c : MicroModule) (module_name : option string)
          (arg : voidp) : Z -> MicroModule -> trace -> Prop :=
| ExitEmpty :
    modules c = [] ->
    exit_outcome c module_name arg MICRO_MODULE_ERROR_MODULE_NOT_REGISTERED c []
| ExitNullName :
    modules c <> [] -> module_name = None ->
    exit_outcome c module_name arg MICRO_MODULE_ERROR_ARG_NULL c []
| ExitUnknown n :
    modules c <> [] -> module_name = Some n ->
    find_module n (modules c) = None ->
    exit_outcome c module_name arg MICRO_MODULE_ERROR_MODULE_NOT_REGISTERED c []
| ExitNotClosed e l1 l2 rx rc :
    module_name = Some (name e) -> modules c = l1 ++ e :: l2 ->
    find_module (name e) l1 = None -> rc <> 0 ->
    exit_outcome c module_name arg MICRO_MODULE_ERROR_CLOSING_MODULE c
      [EvExitFn (exit_fn e) arg rx; EvDlclose (dlhandler e) rc]
| ExitUnlinked e l1 l2 rx :
    module_name = Some (name e) -> modules c = l1 ++ e :: l2 ->
    find_module (name e) l1 = None ->
    exit_outcome c module_name arg MICRO_MODULE_OK (with_modules (l1 ++ l2) c)
      [EvExitFn (exit_fn e) arg rx; EvDlclose (dlhandler e) 0;
       EvStore (l1 ++ l2); EvFree].

(** ** Basic facts *)

Ltac munfold :=
  unfold teardown, init_call, bind, ret, get, set_modules, dlmopen, dlsym_fn,
    dlsym_name, dlclose, call_init_fn, call_exit_fn, MICRO_MODULE_MALLOC,
    MICRO_MODULE_FREE, fts_open, fts_set_skip, fts_close, log, registry in *;
  simpl in *.

Lemma find_module_split n ms e :
  find_module n ms = Some e ->
  exists l1 l2, ms = l1 ++ e :: l2 /\ name e = n /\ find_module n l1 = None.
Proof.
  unfold find_module. induction ms as [|x ms IH]; simpl; [discriminate|].
  destruct (String.eqb (name x) n) eqn:E; intros H.
  - inversion H; subst. exists [], ms. apply String.eqb_eq in E. auto.
  - destruct (IH H) as (l1 & l2 & -> & Hn & Hl). exists (x :: l1), l2.
    simpl. rewrite E. auto.
Qed.

Lemma find_module_none_iff n ms :
  find_module n ms = None <-> ~ In n (names ms).
Proof.
  unfold find_module, names. induction ms as [|x ms IH]; simpl.
  - tauto.
  - destruct (String.eqb (name x) n) eqn:E.
    + apply String.eqb_eq in E. split; [discriminate | tauto].
    + apply String.eqb_neq in E. tauto.
Qed.

Lemma find_module_app_first n l1 e l2 :
  find_module n l1 = None -> name e = n ->
  find_module n (l1 ++ e :: l2) = Some e.
Proof.
  unfold find_module. intros H1 He. induction l1 as [|x l1 IH]; simpl in *.
  - subst. now rewrite String.eqb_refl.
  - destruct (String.eqb (name x) n); [discriminate | auto].
Qed.

Section Facts.

Variable W : Platform.

Lemma exit_scan_skip n arg l1 : forall prev it s,
  find_module n l1 = None ->
  exit_scan W n arg prev (l1 ++ it) s = exit_scan W n arg (prev ++ l1) it s.
Proof.
  unfold find_module. induction l1 as [|x l1 IH]; intros prev it s H; simpl in *.
  - now rewrite app_nil_r.
  - destruct (String.eqb (name x) n); [discriminate|].
    rewrite IH by assumption. now rewrite <- app_assoc.
Qed.

Lemma init_scan_skip m arg l1 : forall prev it s,
  find_module (name m) l1 = None ->
  init_scan W m arg prev (l1 ++ it) s = init_scan W m arg (prev ++ l1) it s.
Proof.
  unfold find_module. induction l1 as [|x l1 IH]; intros prev it s H; simpl in *.
  - now rewrite app_nil_r.
  - destruct (String.eqb (name x) (name m)); [discriminate|].
    rewrite IH by assumption. now rewrite <- app_assoc.
Qed.

Lemma exit_scan_absent n arg prev it s :
  find_module n it = None ->
  exit_scan W n arg prev it s = (MICRO_MODULE_ERROR_MODULE_NOT_REGISTERED, s).
Proof.
  intros H. rewrite <- (app_nil_r it). rewrite exit_scan_skip by assumption.
  reflexivity.
Qed.

Lemma init_scan_absent m arg prev it s :
  find_module (name m) it = None ->
  init_scan W m arg prev it s = (ScanEnd false, s).
Proof.
  intros H. rewrite <- (app_nil_r it). rewrite init_scan_skip by assumption.
  reflexivity.
Qed.

Lemma exit_unknown_name_lemma (s : State) (n : string) (arg : voidp) :
  ~ In n (names (registry s)) ->
  micro_module_exit W MM_PTR (Some n) arg s
  = (MICRO_MODULE_ERROR_MODULE_NOT_REGISTERED, s).
Proof.
  intros H. apply find_module_none_iff in H.
  unfold micro_module_exit, registry in *. munfold.
  destruct (modules (st_mm s)) as [|head next] eqn:E; [reflexivity|].
  pose proof H as H'. unfold find_module in H'. simpl in H'.
  destruct (String.eqb (name head) n); [discriminate|].
  now apply exit_scan_absent.
Qed.

(** C4: unloading a name that no registered module carries returns
    MICRO_MODULE_ERROR_MODULE_NOT_REGISTERED and leaves the whole state as it
    was: the list of modules is the same and the trace gains no event, so no
    exit function is called, no handle closed and no node removed. *)
Theorem exit_unknown_name_not_registered (s : State) (n : string) (arg : voidp) :
  ~ In n (names (registry s)) ->
  micro_module_exit W MM_PTR (Some n) arg s
  = (MICRO_MODULE_ERROR_MODULE_NOT_REGISTERED, s).
Proof.
  exact (exit_unknown_name_lemma s n arg).
Qed.

(** What [micro_module_exit] does on a registered name: it tears down the
    first node [e] carrying it and, when [dlclose] answered 0, unlinks and
    frees that node. *)
Lemma exit_found (s : State) (n : string) (arg : voidp) (e : MicroModuleEntry) :
  find_module n (registry s) = Some e ->
  exists l1 l2,
    registry s = l1 ++ e :: l2 /\ find_module n l1 = None /\
    micro_module_exit W MM_PTR (Some n) arg s
    = (let (rc, s1) := teardown W e arg s in
       if negb (rc =? 0) then (MICRO_MODULE_ERROR_CLOSING_MODULE, s1)
       else (MICRO_MODULE_OK, log EvFree (snd (set_modules (l1 ++ l2) s1)))).
Proof.
  intros H. destruct (find_module_split _ _ _ H) as (l1 & l2 & E & Hn & Hl).
  exists l1, l2. split; [assumption|]. split; [assumption|].
  unfold micro_module_exit, registry in *. munfold. rewrite E.
  destruct l1 as [|x l1]; simpl.
  - subst n. rewrite String.eqb_refl.
    destruct (negb _); reflexivity.
  - pose proof Hl as Hl'. unfold find_module in Hl'. simpl in Hl'.
    destruct (String.eqb (name x) n) eqn:Ex; [discriminate|].
    rewrite (exit_scan_skip n arg l1 [x] (e :: l2)) by exact Hl'.
    simpl. subst n. rewrite String.eqb_refl. munfold.
    destruct (negb _); reflexivity.
Qed.

Lemma exit_scan_codes n arg : forall it prev s,
  let r := fst (exit_scan W n arg prev it s) in
  r = MICRO_MODULE_ERROR_CLOSING_MODULE \/ r = MICRO_MODULE_OK \/
  r = MICRO_MODULE_ERROR_MODULE_NOT_REGISTERED.
Proof.
  induction it as [|e next IH]; intros prev s; simpl.
  - auto.
  - destruct (String.eqb (name e) n).
    + munfold. destruct (negb _); simpl; auto.
    + apply IH.
Qed.

(** C10: [micro_module_exit] looks at the list before it looks at the name.
    On an empty registry every name argument, NULL included, gives
    MICRO_MODULE_ERROR_MODULE_NOT_REGISTERED and changes nothing; the result
    is MICRO_MODULE_ERROR_ARG_NULL exactly when the name is NULL and the
    registry is not empty. *)
Theorem exit_checks_empty_registry_before_name
        (s : State) (module_name : option string) (arg : voidp) :
  (registry s = [] ->
   micro_module_exit W MM_PTR module_name arg s
   = (MICRO_MODULE_ERROR_MODULE_NOT_REGISTERED, s)) /\
  (fst (micro_module_exit W MM_PTR module_name arg s)
   = MICRO_MODULE_ERROR_ARG_NULL
   <-> module_name = None /\ registry s <> []).
Proof.
  unfold micro_module_exit, registry. munfold. split.
  - intros ->. reflexivity.
  - destruct (modules (st_mm s)) as [|head next].
    + simpl. split; [discriminate | intros [_ H]; now elim H].
    + destruct module_name as [n|]; simpl.
      * split; [|intros [H _]; discriminate].
        destruct (String.eqb (name head) n).
        -- destruct (negb _); simpl; discriminate.
        -- intros H.
           pose proof (exit_scan_codes n arg next [head] s) as C.
           simpl in C. rewrite H in C.
           destruct C as [C|[C|C]]; discriminate.
      * split; [intros _; split; [reflexivity | discriminate] | reflexivity].
Qed.

(** C6: when [micro_module_exit] has called the exit entry point of the
    registered module and [dlclose] of its handle then answers non-zero, the
    result is MICRO_MODULE_ERROR_CLOSING_MODULE and the node stays in the
    list: the loader's structure is unchanged and the name still finds the
    same entry, after exactly the exit call and the failed close. *)
Theorem exit_close_failure_keeps_entry
        (s : State) (n : string) (arg : voidp) (e : MicroModuleEntry) :
  find_module n (registry s) = Some e ->
  fst (teardown W e arg s) <> 0 ->
  let r := micro_module_exit W MM_PTR (Some n) arg s in
  fst r = MICRO_MODULE_ERROR_CLOSING_MODULE /\
  st_mm (snd r) = st_mm s /\
  find_module n (registry (snd r)) = Some e /\
  exists rx rc, rc <> 0 /\
    st_trace (snd r)
    = st_trace s ++ [EvExitFn (exit_fn e) arg rx; EvDlclose (dlhandler e) rc].
Proof.
  intros H Hrc. destruct (exit_found s n arg e H) as (l1 & l2 & E & Hl & Eq).
  cbv zeta. rewrite Eq. clear Eq. munfold.
  apply Z.eqb_neq in Hrc. rewrite Hrc. simpl.
  repeat split; try assumption.
  eexists _, _. split; [apply Z.eqb_neq; exact Hrc|].
  now rewrite <- app_assoc.
Qed.

(** *** micro_module_init, case by case *)

Lemma init_load_ok (filename : string) (s s1 : State) (m : MicroModuleEntry) :
  init_load W filename s = (inr m, s1) ->
  st_mm s1 = st_mm s /\
  st_trace s1 = st_trace s ++ load_events (st_mm s) filename m.
Proof.
  unfold init_load, load_events, lmid_of. munfold.
  destruct (use_new_namespace (st_mm s));
    repeat match goal with
    | |- context [match ?o with Some _ => _ | None => _ end] =>
      let E := fresh "E" in destruct o eqn:E; simpl
    end;
    intros H; inversion H; subst; clear H; simpl;
    (split; [reflexivity|]); repeat rewrite <- app_assoc; simpl;
    repeat match goal with
    | E : _ = Some _ |- _ => rewrite <- E; clear E
    end; reflexivity.
Qed.

Lemma init_load_fail (filename : string) (s s1 : State) (err : Z) :
  init_load W filename s = (inl err, s1) ->
  st_mm s1 = st_mm s /\
  (st_trace s1 = st_trace s ++ [EvDlmopen (lmid_of (st_mm s)) filename None] \/
   exists h syms rc,
     forallb is_dlsym syms = true /\
     st_trace s1 = st_trace s
       ++ EvDlmopen (lmid_of (st_mm s)) filename (Some h) :: syms
       ++ [EvDlclose h rc]).
Proof.
  unfold init_load, lmid_of. munfold.
  destruct (use_new_namespace (st_mm s));
    repeat match goal with
    | |- context [match ?o with Some _ => _ | None => _ end] =>
      let E := fresh "E" in destruct o eqn:E; simpl
    end;
    intros H; inversion H; subst; clear H; simpl;
    (split; [reflexivity|]); repeat rewrite <- app_assoc; simpl;
    try (left; reflexivity); right;
    first [ eexists _, [_; _; _], _; split; [|simpl; reflexivity]; reflexivity
          | eexists _, [_; _], _; split; [|simpl; reflexivity]; reflexivity
          | eexists _, [_], _; split; [|simpl; reflexivity]; reflexivity ].
Qed.

Lemma init_register_found (s : State) (m old : MicroModuleEntry) (arg : voidp) :
  find_module (name m) (registry s) = Some old ->
  exists l1 l2,
    registry s = l1 ++ old :: l2 /\ find_module (name m) l1 = None /\
    init_register W m arg s
    = (let (rc, s1) := teardown W old arg s in
       if negb (rc =? 0)
       then (MICRO_MODULE_ERROR_CLOSING_MODULE, snd (dlclose W (dlhandler m) s1))
       else init_call W m arg (snd (set_modules (l1 ++ m :: l2) s1))).
Proof.
  intros H. destruct (find_module_split _ _ _ H) as (l1 & l2 & E & Hn & Hl).
  exists l1, l2. split; [assumption|]. split; [assumption|].
  unfold init_register, registry in *. unfold bind at 1, get at 1. rewrite E.
  unfold bind at 1.
  rewrite (init_scan_skip m arg l1 [] (old :: l2)) by exact Hl.
  simpl. rewrite Hn, String.eqb_refl. munfold.
  destruct (negb _); reflexivity.
Qed.

Lemma init_register_absent (s : State) (m : MicroModuleEntry) (arg : voidp) :
  find_module (name m) (registry s) = None ->
  init_register W m arg s
  = (let (ok, s1) := MICRO_MODULE_MALLOC W s in
     if negb ok then (MICRO_MODULE_ERROR_ALLOCATING_MEMORY, s1)
     else init_call W m arg (snd (set_modules (m :: registry s) s1))).
Proof.
  intros H. unfold init_register, registry in *.
  unfold bind at 1, get at 1. unfold bind at 1.
  rewrite init_scan_absent by exact H. munfold.
  destruct (malloc_result W (st_trace s)); simpl; [|reflexivity].
  destruct (modules (st_mm s)); reflexivity.
Qed.

Lemma init_unfold (filename : string) (arg : voidp) (s : State) :
  micro_module_init W MM_PTR filename arg s
  = (let (a, s') := init_load W filename s in
     match a with
     | inl err => (err, s')
     | inr module => init_register W module arg s'
     end).
Proof.
  unfold micro_module_init, bind.
  destruct (init_load W filename s) as [[err|module] s']; reflexivity.
Qed.

Lemma init_call_spec (m : MicroModuleEntry) (arg : voidp) (s : State) :
  init_call W m arg s
  = (let v := init_fn_result W (st_trace s) (init_fn m) arg in
     (v, log (EvInitFn (init_fn m) arg v) s)).
Proof.
  munfold. destruct (_ =? 0) eqn:E; simpl; [|reflexivity].
  apply Z.eqb_eq in E. rewrite E. reflexivity.
Qed.

Lemma count_name_absent n ms :
  ~ In n (names ms) -> count_name n ms = 0%nat.
Proof.
  unfold count_name, names. induction ms as [|x ms IH]; simpl; [reflexivity|].
  intros H. destruct (String.eqb (name x) n) eqn:E.
  - apply String.eqb_eq in E. tauto.
  - apply IH. tauto.
Qed.

Lemma count_name_unique n ms :
  NoDup (names ms) -> In n (names ms) -> count_name n ms = 1%nat.
Proof.
  unfold names. induction ms as [|x ms IH]; simpl; [tauto|].
  intros ND Hin. inversion ND as [|? ? Hx ND']; subst.
  unfold count_name in *. simpl.
  destruct (String.eqb (name x) n) eqn:E; simpl.
  - apply String.eqb_eq in E. subst n.
    f_equal. apply (count_name_absent (name x) ms Hx).
  - apply String.eqb_neq in E. apply IH; tauto.
Qed.

Lemma names_replace (m old : MicroModuleEntry) l1 l2 :
  name m = name old -> names (l1 ++ m :: l2) = names (l1 ++ old :: l2).
Proof.
  intros H. unfold names. rewrite !map_app. simpl. now rewrite H.
Qed.

Lemma teardown_shape (e : MicroModuleEntry) (arg : voidp) (s s2 : State) (rc : Z) :
  teardown W e arg s = (rc, s2) ->
  st_mm s2 = st_mm s /\
  exists rx,
    st_trace s2
    = st_trace s ++ [EvExitFn (exit_fn e) arg rx; EvDlclose (dlhandler e) rc].
Proof.
  munfold. intros H. inversion H; subst; clear H. simpl.
  split; [reflexivity|]. eexists. now rewrite <- app_assoc.
Qed.

(** C2: when the file resolves to the name of a registered module and
    [dlclose] of the old entry's handle answers non-zero, the result is
    MICRO_MODULE_ERROR_CLOSING_MODULE and the last thing done before
    returning is [dlclose] of the handle that was just opened; the loader's
    structure is as it was. *)
Theorem init_old_close_failure_closes_new_handle
        (s s1 : State) (filename : string) (arg : voidp)
        (m old : MicroModuleEntry) :
  init_load W filename s = (inr m, s1) ->
  find_module (name m) (registry s) = Some old ->
  fst (teardown W old arg s1) <> 0 ->
  let r := micro_module_init W MM_PTR filename arg s in
  fst r = MICRO_MODULE_ERROR_CLOSING_MODULE /\
  st_mm (snd r) = st_mm s /\
  exists rx rc rn, rc <> 0 /\
    st_trace (snd r)
    = st_trace s ++ load_events (st_mm s) filename m
      ++ [EvExitFn (exit_fn old) arg rx; EvDlclose (dlhandler old) rc;
          EvDlclose (dlhandler m) rn].
Proof.
  intros HL Hf Hrc. destruct (init_load_ok _ _ _ _ HL) as [Emm Etr].
  assert (Hf1 : find_module (name m) (registry s1) = Some old)
    by (unfold registry; rewrite Emm; exact Hf).
  destruct (init_register_found s1 m old arg Hf1) as (l1 & l2 & E & Hl & Eq).
  cbv zeta. rewrite init_unfold, HL, Eq. clear Eq.
  destruct (teardown W old arg s1) as [rc s2] eqn:ET.
  destruct (teardown_shape _ _ _ _ _ ET) as (Emm2 & rx & Etr2).
  simpl in Hrc. apply Z.eqb_neq in Hrc. rewrite Hrc. simpl.
  split; [reflexivity|]. split; [congruence|].
  exists rx, rc. eexists. split; [apply Z.eqb_neq; exact Hrc|].
  rewrite Etr2, Etr. repeat rewrite <- app_assoc. reflexivity.
Qed.

(** C1: loading a file whose name symbol gives the name of a registered
    module, on a registry with unique names, leaves exactly one node under
    that name.  The exit entry point of the old entry is called and its
    handle closed first; the node is overwritten with the new module (the
    only store of the call) after [dlclose] answered 0, and not at all
    otherwise. *)
Theorem init_reload_single_entry_after_teardown
        (s s1 : State) (filename : string) (arg : voidp)
        (m old : MicroModuleEntry) :
  unique_names s ->
  init_load W filename s = (inr m, s1) ->
  find_module (name m) (registry s) = Some old ->
  let r := micro_module_init W MM_PTR filename arg s in
  count_name (name m) (registry (snd r)) = 1%nat /\
  exists l1 l2 rx rc tail,
    registry s = l1 ++ old :: l2 /\
    st_trace (snd r)
    = st_trace s ++ load_events (st_mm s) filename m
      ++ EvExitFn (exit_fn old) arg rx :: EvDlclose (dlhandler old) rc :: tail /\
    (rc = 0 ->
     registry (snd r) = l1 ++ m :: l2 /\
     tail = [EvStore (l1 ++ m :: l2); EvInitFn (init_fn m) arg (fst r)]) /\
    (rc <> 0 ->
     registry (snd r) = registry s /\ existsb is_store tail = false).
Proof.
  intros ND HL Hf. destruct (init_load_ok _ _ _ _ HL) as [Emm Etr].
  assert (Hf1 : find_module (name m) (registry s1) = Some old)
    by (unfold registry; rewrite Emm; exact Hf).
  destruct (init_register_found s1 m old arg Hf1) as (l1 & l2 & E & Hl & Eq).
  assert (Es : registry s = l1 ++ old :: l2)
    by (unfold registry in *; rewrite <- Emm; exact E).
  destruct (find_module_split _ _ _ Hf) as (_ & _ & _ & Hname & _).
  assert (Hin : In (name m) (names (registry s))).
  { rewrite Es. unfold names. rewrite map_app. apply in_or_app. right.
    left. exact Hname. }
  cbv zeta. rewrite init_unfold, HL, Eq. clear Eq.
  destruct (teardown W old arg s1) as [rc s2] eqn:ET.
  destruct (teardown_shape _ _ _ _ _ ET) as (Emm2 & rx & Etr2).
  rewrite Etr in Etr2.
  destruct (rc =? 0) eqn:Erc; simpl.
  - (* the old handle is closed, the node is overwritten *)
    apply Z.eqb_eq in Erc. rewrite init_call_spec. unfold registry. simpl.
    rewrite Etr2. repeat rewrite <- app_assoc. simpl. split.
    + apply count_name_unique.
      * rewrite (names_replace m old) by (symmetry; exact Hname).
        rewrite <- Es. exact ND.
      * unfold names. rewrite map_app. apply in_or_app. right. now left.
    + exists l1, l2, rx, rc. eexists. split; [exact Es|]. split.
      * repeat rewrite <- app_assoc. simpl. reflexivity.
      * split; [intros _; split; reflexivity | intros H0; now elim H0].
  - (* the old handle does not close: no store *)
    apply Z.eqb_neq in Erc. unfold registry in *. simpl. split.
    + rewrite Emm2, Emm. apply count_name_unique; assumption.
    + exists l1, l2, rx, rc. eexists. split; [exact Es|]. split.
      * rewrite Etr2. repeat rewrite <- app_assoc. simpl. reflexivity.
      * split; [intros H0; now elim Erc|].
        intros _. split; [now rewrite Emm2, Emm | reflexivity].
Qed.

(** C3:when a load reaches the init entry point of the module and that
    entry point returns a non-zero value, [micro_module_init] returns this
    very value, and the module it resolved from the file is registered: its
    name finds it in the list. *)
Theorem init_nonzero_status_returned_and_registered
        (s : State) (filename : string) (arg : voidp)
        (pre : trace) (f : fnptr) (a : voidp) (v : Z) :
  let r := micro_module_init W MM_PTR filename arg s in
  st_trace (snd r) = pre ++ [EvInitFn f a v] ->
  v <> 0 ->
  fst r = v /\
  exists m s1,
    init_load W filename s = (inr m, s1) /\
    f = init_fn m /\ a = arg /\
    find_module (name m) (registry (snd r)) = Some m.
Proof.
  cbv zeta. rewrite init_unfold.
  destruct (init_load W filename s) as [[err|m] s1] eqn:HL; simpl.
  - (* the file is not opened or not resolved *)
    intros H _. exfalso.
    destruct (init_load_fail _ _ _ _ HL) as [_ [E | (h & syms & rc & _ & E)]];
      rewrite E in H; last_event H.
  - destruct (find_module (name m) (registry s1)) as [old|] eqn:Hf.
    + (* the name is registered *)
      destruct (init_register_found s1 m old arg Hf) as (l1 & l2 & E & Hl & Eq).
      rewrite Eq. clear Eq.
      destruct (teardown W old arg s1) as [rc s2] eqn:ET.
      destruct (rc =? 0); simpl.
      * rewrite init_call_spec. unfold registry. simpl. intros H Hv.
        last_event H. inversion H; subst. split; [reflexivity|].
        exists m, s1. repeat split.
        now apply find_module_app_first.
      * unfold dlclose. simpl. intros H _. exfalso. last_event H.
    + (* the name is new *)
      rewrite (init_register_absent s1 m arg Hf).
      unfold MICRO_MODULE_MALLOC. cbv zeta.
      destruct (malloc_result W (st_trace s1)); simpl.
      * rewrite init_call_spec. unfold registry. simpl. intros H Hv.
        last_event H. inversion H; subst. split; [reflexivity|].
        exists m, s1. repeat split.
        unfold find_module. simpl. now rewrite String.eqb_refl.
      * intros H _. exfalso. last_event H.
Qed.

(** *** micro_module_exit, case by case *)

Lemma exit_cases (module_name : option string) (arg : voidp) (s : State) :
  (exists r, r <> MICRO_MODULE_OK /\
             micro_module_exit W MM_PTR module_name arg s = (r, s)) \/
  (exists e l1 l2 rc s1,
      module_name = Some (name e) /\
      registry s = l1 ++ e :: l2 /\
      find_module (name e) l1 = None /\
      teardown W e arg s = (rc, s1) /\
      ((rc <> 0 /\
        micro_module_exit W MM_PTR module_name arg s
        = (MICRO_MODULE_ERROR_CLOSING_MODULE, s1)) \/
       (rc = 0 /\
        micro_module_exit W MM_PTR module_name arg s
        = (MICRO_MODULE_OK, log EvFree (snd (set_modules (l1 ++ l2) s1)))))).
Proof.
  destruct module_name as [n|].
  - destruct (find_module n (registry s)) as [e|] eqn:Hf.
    + right. destruct (exit_found s n arg e Hf) as (l1 & l2 & E & Hl & Eq).
      destruct (find_module_split _ _ _ Hf) as (_ & _ & _ & Hn & _). subst n.
      destruct (teardown W e arg s) as [rc s1] eqn:ET.
      exists e, l1, l2, rc, s1. repeat split; try assumption.
      rewrite Eq. destruct (rc =? 0) eqn:Erc; simpl.
      * right. apply Z.eqb_eq in Erc. auto.
      * left. apply Z.eqb_neq in Erc. auto.
    + left. exists MICRO_MODULE_ERROR_MODULE_NOT_REGISTERED.
      split; [discriminate|]. apply exit_unknown_name_lemma.
      now apply find_module_none_iff.
  - left. unfold micro_module_exit, registry. munfold.
    destruct (modules (st_mm s)); eexists; (split; [|reflexivity]); discriminate.
Qed.

(** When the cursor of [micro_module_exit_all] is the head of the list,
    the call it makes unloads that very node. *)
Lemma exit_head (e : MicroModuleEntry) (next : list MicroModuleEntry)
      (arg : voidp) (s : State) :
  registry s = e :: next ->
  micro_module_exit W MM_PTR (Some (name e)) arg s
  = (let (rc, s1) := teardown W e arg s in
     if negb (rc =? 0) then (MICRO_MODULE_ERROR_CLOSING_MODULE, s1)
     else (MICRO_MODULE_OK, log EvFree (snd (set_modules next s1)))).
Proof.
  unfold micro_module_exit, registry. munfold. intros ->.
  rewrite String.eqb_refl. destruct (negb _); reflexivity.
Qed.

Lemma exit_all_loop_cons (arg : voidp) e next (s : State) :
  exit_all_loop W arg (e :: next) s
  = (let (err, s') := micro_module_exit W MM_PTR (Some (name e)) arg s in
     if negb (err =? MICRO_MODULE_OK) then (err, s')
     else exit_all_loop W arg next s').
Proof.
  change (exit_all_loop W arg (e :: next) s)
    with (bind (micro_module_exit W MM_PTR (Some (name e)) arg)
               (fun err => if negb (err =? MICRO_MODULE_OK) then ret err
                           else exit_all_loop W arg next) s).
  unfold bind.
  destruct (micro_module_exit W MM_PTR (Some (name e)) arg s) as [err s'].
  destruct (negb _); reflexivity.
Qed.

(** The loop of [micro_module_exit_all] keeps the cursor on the head of
    the live list: when it ends with MICRO_MODULE_OK every node it visited
    has been unlinked. *)
Lemma exit_all_loop_ok (arg : voidp) : forall it s,
  registry s = it ->
  fst (exit_all_loop W arg it s) = MICRO_MODULE_OK ->
  registry (snd (exit_all_loop W arg it s)) = [].
Proof.
  induction it as [|e next IH]; intros s E H.
  - exact E.
  - rewrite exit_all_loop_cons, (exit_head e next arg s E) in *.
    destruct (teardown W e arg s) as [rc s1].
    destruct (negb (rc =? 0)); simpl in *; [discriminate|].
    apply IH; [reflexivity | exact H].
Qed.

Lemma exit_all_unfold (arg : voidp) (s : State) :
  micro_module_exit_all W MM_PTR arg s
  = (let (err, s') := exit_all_loop W arg (registry s) s in
     if negb (err =? MICRO_MODULE_OK) then (err, s')
     else (MICRO_MODULE_OK, snd (set_modules [] s'))).
Proof.
  unfold micro_module_exit_all, registry, bind, get.
  destruct (exit_all_loop W arg (modules (st_mm s)) s) as [err s'].
  destruct (negb _); reflexivity.
Qed.

Lemma exit_all_on_empty (arg : voidp) (s : State) :
  registry s = [] ->
  let r := micro_module_exit_all W MM_PTR arg s in
  fst r = MICRO_MODULE_OK /\ st_mm (snd r) = st_mm s /\
  st_trace (snd r) = st_trace s ++ [EvStore []].
Proof.
  intros E. cbv zeta. rewrite exit_all_unfold, E. simpl.
  repeat split. unfold registry in E.
  destruct s as [[ms a b c d] tr]; simpl in *. now subst ms.
Qed.

(** C7: on an empty registry [micro_module_exit_all] returns
    MICRO_MODULE_OK without calling an exit function, closing a handle or
    freeing a node (its only effect is the store of NULL into the list
    head); after a call that returned MICRO_MODULE_OK the registry is empty,
    and so a second call right after it returns MICRO_MODULE_OK again,
    unloading nothing. *)
Theorem exit_all_empty_noop_and_repeatable (arg arg' : voidp) :
  (forall s, registry s = [] ->
     let r := micro_module_exit_all W MM_PTR arg s in
     fst r = MICRO_MODULE_OK /\ st_mm (snd r) = st_mm s /\
     st_trace (snd r) = st_trace s ++ [EvStore []]) /\
  (forall s,
     let r := micro_module_exit_all W MM_PTR arg s in
     fst r = MICRO_MODULE_OK ->
     registry (snd r) = [] /\
     let r2 := micro_module_exit_all W MM_PTR arg' (snd r) in
     fst r2 = MICRO_MODULE_OK /\ registry (snd r2) = [] /\
     st_trace (snd r2) = st_trace (snd r) ++ [EvStore []]).
Proof.
  split; [exact (exit_all_on_empty arg)|].
  intros s r H.
  assert (E : registry (snd r) = []).
  { subst r. rewrite exit_all_unfold in *.
    destruct (exit_all_loop W arg (registry s) s) as [err s'].
    destruct (negb (err =? MICRO_MODULE_OK)) eqn:Ee; simpl in *.
    - subst err. discriminate.
    - reflexivity. }
  split; [exact E|].
  destruct (exit_all_on_empty arg' (snd r) E) as (H1 & H2 & H3).
  cbv zeta. repeat split; try assumption.
  unfold registry in *. now rewrite H2.
Qed.

Lemma init_cases (filename : string) (arg : voidp) (s : State) :
  (exists err s1,
      init_load W filename s = (inl err, s1) /\
      micro_module_init W MM_PTR filename arg s = (err, s1)) \/
  (exists m s1,
      init_load W filename s = (inr m, s1) /\
      ((exists old l1 l2 rc s2,
           registry s1 = l1 ++ old :: l2 /\ name old = name m /\
           find_module (name m) l1 = None /\
           teardown W old arg s1 = (rc, s2) /\
           ((rc <> 0 /\
             micro_module_init W MM_PTR filename arg s
             = (MICRO_MODULE_ERROR_CLOSING_MODULE,
                snd (dlclose W (dlhandler m) s2))) \/
            (rc = 0 /\
             micro_module_init W MM_PTR filename arg s
             = init_call W m arg (snd (set_modules (l1 ++ m :: l2) s2))))) \/
       (find_module (name m) (registry s1) = None /\
        ((malloc_result W (st_trace s1) = false /\
          micro_module_init W MM_PTR filename arg s
          = (MICRO_MODULE_ERROR_ALLOCATING_MEMORY, log (EvMalloc false) s1)) \/
         (malloc_result W (st_trace s1) = true /\
          micro_module_init W MM_PTR filename arg s
          = init_call W m arg
              (snd (set_modules (m :: registry s1)
                                (log (EvMalloc true) s1)))))))).
Proof.
  rewrite init_unfold.
  destruct (init_load W filename s) as [[err|m] s1] eqn:HL.
  - left. now exists err, s1.
  - right. exists m, s1. split; [reflexivity|].
    destruct (find_module (name m) (registry s1)) as [old|] eqn:Hf.
    + left.
      destruct (init_register_found s1 m old arg Hf) as (l1 & l2 & E & Hl & Eq).
      destruct (find_module_split _ _ _ Hf) as (_ & _ & _ & Hn & _).
      destruct (teardown W old arg s1) as [rc s2] eqn:ET.
      exists old, l1, l2, rc, s2. repeat split; try assumption.
      rewrite Eq. destruct (rc =? 0) eqn:Erc; simpl.
      * right. apply Z.eqb_eq in Erc. auto.
      * left. apply Z.eqb_neq in Erc. auto.
    + right. split; [reflexivity|].
      rewrite (init_register_absent s1 m arg Hf).
      unfold MICRO_MODULE_MALLOC. cbv zeta.
      destruct (malloc_result W (st_trace s1)); simpl; auto.
Qed.

(** *** Unique names *)

Lemma keeps_refl s : unique_names s -> keeps_unique s s.
Proof.
  intros H. split; [exact H|]. exists []. now rewrite app_nil_r.
Qed.

Lemma keeps_trans s s1 s2 :
  keeps_unique s s1 -> keeps_unique s1 s2 -> keeps_unique s s2.
Proof.
  intros [_ (t1 & E1 & F1)] [U (t2 & E2 & F2)]. split; [exact U|].
  exists (t1 ++ t2). rewrite E2, E1, app_assoc. split; [reflexivity|].
  apply Forall_app; auto.
Qed.

(** A step that leaves the structure alone and stores nothing. *)
Lemma keeps_quiet s s1 t :
  unique_names s -> st_mm s1 = st_mm s -> st_trace s1 = st_trace s ++ t ->
  Forall (fun e => is_store e = false) t -> keeps_unique s s1.
Proof.
  intros U Emm Etr F. split.
  - unfold unique_names, registry in *. now rewrite Emm.
  - exists t. split; [exact Etr|].
    eapply Forall_impl; [|exact F]. intros [] H; simpl in *; auto; discriminate.
Qed.

Lemma keeps_store s ms :
  NoDup (names ms) -> keeps_unique s (snd (set_modules ms s)).
Proof.
  intros H. split; [exact H|]. exists [EvStore ms]. split; [reflexivity|].
  repeat constructor. exact H.
Qed.

Lemma keeps_log s e :
  unique_names s -> is_store e = false -> keeps_unique s (log e s).
Proof.
  intros U H. apply (keeps_quiet s (log e s) [e]); auto.
Qed.

Lemma keeps_teardown s e arg rc s1 :
  unique_names s -> teardown W e arg s = (rc, s1) -> keeps_unique s s1.
Proof.
  intros U ET. destruct (teardown_shape _ _ _ _ _ ET) as (Emm & rx & Etr).
  eapply keeps_quiet; eauto.
Qed.

Lemma keeps_init_load s filename x s1 :
  unique_names s -> init_load W filename s = (x, s1) -> keeps_unique s s1.
Proof.
  intros U HL. destruct x as [err|m].
  - destruct (init_load_fail _ _ _ _ HL) as [Emm [E | (h & syms & rc & F & E)]];
      eapply keeps_quiet; eauto.
    constructor; [reflexivity|]. apply Forall_app. split.
    + apply Forall_forall. intros e He.
      rewrite forallb_forall in F. specialize (F e He). now destruct e.
    + repeat constructor.
  - destruct (init_load_ok _ _ _ _ HL) as [Emm E].
    eapply keeps_quiet; eauto. unfold load_events. repeat constructor.
Qed.

Lemma keeps_init_call s m arg :
  unique_names s -> keeps_unique s (snd (init_call W m arg s)).
Proof.
  intros U. rewrite init_call_spec. cbv zeta. simpl. now apply keeps_log.
Qed.

Lemma names_remove (l1 l2 : list MicroModuleEntry) e :
  NoDup (names (l1 ++ e :: l2)) -> NoDup (names (l1 ++ l2)).
Proof.
  unfold names. rewrite !map_app. simpl. apply NoDup_remove_1.
Qed.

Lemma exit_keeps_unique mm module_name arg s :
  unique_names s ->
  keeps_unique s (snd (micro_module_exit W mm module_name arg s)).
Proof.
  intros U. destruct mm; [now apply keeps_refl|].
  destruct (exit_cases module_name arg s)
    as [(r & _ & ->) | (e & l1 & l2 & rc & s1 & _ & E & _ & ET & [[_ ->] | [_ ->]])];
    simpl.
  - now apply keeps_refl.
  - eapply keeps_teardown; eauto.
  - pose proof (keeps_teardown _ _ _ _ _ U ET) as K.
    eapply keeps_trans; [exact K|].
    assert (ND : NoDup (names (l1 ++ l2))).
    { apply (names_remove l1 l2 e). unfold unique_names in U. now rewrite E in U. }
    eapply keeps_trans; [apply keeps_store; exact ND|].
    apply keeps_log; [exact ND | reflexivity].
Qed.

Lemma init_keeps_unique mm filename arg s :
  unique_names s ->
  keeps_unique s (snd (micro_module_init W mm filename arg s)).
Proof.
  intros U. destruct mm; [now apply keeps_refl|].
  destruct (init_cases filename arg s)
    as [(err & s1 & HL & ->)
       | (m & s1 & HL &
          [(old & l1 & l2 & rc & s2 & E & Hn & Hl & ET & [[_ ->] | [_ ->]])
          | (Hf & [[_ ->] | [_ ->]])])];
    pose proof (keeps_init_load _ _ _ _ U HL) as K; simpl.
  - exact K.
  - eapply keeps_trans; [exact K|]. destruct K as [U1 _].
    pose proof (keeps_teardown _ _ _ _ _ U1 ET) as K2.
    eapply keeps_trans; [exact K2|]. destruct K2 as [U2 _].
    now apply keeps_log.
  - eapply keeps_trans; [exact K|]. destruct K as [U1 _].
    pose proof (keeps_teardown _ _ _ _ _ U1 ET) as K2.
    eapply keeps_trans; [exact K2|].
    assert (ND : NoDup (names (l1 ++ m :: l2))).
    { rewrite (names_replace m old) by (symmetry; exact Hn).
      unfold unique_names in U1. now rewrite E in U1. }
    eapply keeps_trans; [apply keeps_store; exact ND|].
    apply keeps_init_call. exact ND.
  - eapply keeps_trans; [exact K|]. destruct K as [U1 _]. now apply keeps_log.
  - eapply keeps_trans; [exact K|]. destruct K as [U1 _].
    assert (ND : NoDup (names (m :: registry s1))).
    { simpl. constructor; [|exact U1]. now apply find_module_none_iff. }
    eapply keeps_trans; [apply (keeps_log s1 (EvMalloc true) U1); reflexivity|].
    eapply keeps_trans; [apply keeps_store; exact ND|].
    apply keeps_init_call. exact ND.
Qed.

Lemma exit_all_loop_keeps_unique arg : forall it s,
  unique_names s -> keeps_unique s (snd (exit_all_loop W arg it s)).
Proof.
  induction it as [|e next IH]; intros s U; [now apply keeps_refl|].
  rewrite exit_all_loop_cons.
  pose proof (exit_keeps_unique MM_PTR (Some (name e)) arg s U) as K.
  destruct (micro_module_exit W MM_PTR (Some (name e)) arg s) as [err s'].
  destruct (negb _); simpl in *; [exact K|].
  eapply keeps_trans; [exact K|]. apply IH. exact (proj1 K).
Qed.

Lemma exit_all_keeps_unique mm arg s :
  unique_names s -> keeps_unique s (snd (micro_module_exit_all W mm arg s)).
Proof.
  intros U. destruct mm; [now apply keeps_refl|].
  rewrite exit_all_unfold.
  pose proof (exit_all_loop_keeps_unique arg (registry s) s U) as K.
  destruct (exit_all_loop W arg (registry s) s) as [err s'].
  destruct (negb _); simpl in *; [exact K|].
  eapply keeps_trans; [exact K|]. apply keeps_store. constructor.
Qed.

Lemma init_all_loop_cons arg fe rest (s : State) :
  init_all_loop W arg (fe :: rest) s
  = (if is_candidate fe then
       let (err, s') := micro_module_init W MM_PTR (fts_path fe) arg s in
       if negb (err =? MICRO_MODULE_OK) then (err, s')
       else init_all_loop W arg rest s'
     else if is_skipped_dir fe then
       init_all_loop W arg rest (log (EvFtsSetSkip (fts_path fe)) s)
     else init_all_loop W arg rest s).
Proof.
  unfold is_candidate, is_skipped_dir. destruct fe as [info lvl path].
  cbn [init_all_loop fts_info fts_level fts_path].
  destruct info; try reflexivity;
    destruct (lvl =? 0) eqn:E0; destruct (lvl =? 1) eqn:E1;
    cbn [negb]; try reflexivity; unfold bind;
    destruct (micro_module_init W MM_PTR path arg s) as [err s'];
    destruct (negb _); reflexivity.
Qed.

Lemma init_all_loop_keeps_unique arg : forall files s,
  unique_names s -> keeps_unique s (snd (init_all_loop W arg files s)).
Proof.
  induction files as [|fe rest IH]; intros s U; [now apply keeps_refl|].
  rewrite init_all_loop_cons. destruct (is_candidate fe).
  - pose proof (init_keeps_unique MM_PTR (fts_path fe) arg s U) as K.
    destruct (micro_module_init W MM_PTR (fts_path fe) arg s) as [err s'].
    destruct (negb _); simpl in *; [exact K|].
    eapply keeps_trans; [exact K|]. apply IH. exact (proj1 K).
  - destruct (is_skipped_dir fe); [|now apply IH].
    assert (K : keeps_unique s (log (EvFtsSetSkip (fts_path fe)) s))
      by now apply keeps_log.
    eapply keeps_trans; [exact K|]. apply IH. exact (proj1 K).
Qed.

Lemma init_all_unfold dir arg (s : State) :
  micro_module_init_all W MM_PTR dir arg s
  = (match fts_open_result W (st_trace s) dir with
     | None => (MICRO_MODULE_ERROR_OPEN_MODULES_DIR, log (EvFtsOpen dir None) s)
     | Some entries =>
       let (err, s1) :=
           init_all_loop W arg entries (log (EvFtsOpen dir (Some entries)) s) in
       (if (fts_close_result W (st_trace s1) <? 0) && (err =? MICRO_MODULE_OK)
        then MICRO_MODULE_ERROR_CLOSE_MODULES_DIR else err,
        snd (fts_close W s1))
     end).
Proof.
  unfold micro_module_init_all, bind, fts_open. cbv zeta.
  destruct (fts_open_result W (st_trace s) dir) as [entries|]; [|reflexivity].
  destruct (init_all_loop W arg entries _) as [err s1].
  unfold fts_close. cbv zeta. destruct (_ && _); reflexivity.
Qed.

Lemma init_all_keeps_unique mm dir arg s :
  unique_names s -> keeps_unique s (snd (micro_module_init_all W mm dir arg s)).
Proof.
  intros U. destruct mm; [now apply keeps_refl|].
  rewrite init_all_unfold.
  destruct (fts_open_result W (st_trace s) dir) as [entries|]; simpl.
  - assert (K : keeps_unique s (log (EvFtsOpen dir (Some entries)) s))
      by now apply keeps_log.
    pose proof (init_all_loop_keeps_unique arg entries _ (proj1 K)) as K2.
    destruct (init_all_loop W arg entries _) as [err s1]. simpl in *.
    eapply keeps_trans; [exact K|]. eapply keeps_trans; [exact K2|].
    apply keeps_log; [exact (proj1 K2) | reflexivity].
  - now apply keeps_log.
Qed.

Lemma init_replaced_or_pushed mm filename arg s :
  replaced_or_pushed (registry s)
                     (registry (snd (micro_module_init W mm filename arg s))).
Proof.
  destruct mm; [now left|].
  destruct (init_cases filename arg s)
    as [(err & s1 & HL & ->)
       | (m & s1 & HL &
          [(old & l1 & l2 & rc & s2 & E & Hn & Hl & ET & [[_ ->] | [_ ->]])
          | (Hf & [[_ ->] | [_ ->]])])];
    try rewrite init_call_spec; unfold registry in *; simpl.
  - left. destruct (init_load_fail _ _ _ _ HL) as [-> _]. reflexivity.
  - left. destruct (init_load_ok _ _ _ _ HL) as [Emm _].
    destruct (teardown_shape _ _ _ _ _ ET) as [-> _]. now rewrite Emm.
  - left. destruct (init_load_ok _ _ _ _ HL) as [Emm _].
    rewrite <- Emm, E. apply names_replace. now symmetry.
  - left. destruct (init_load_ok _ _ _ _ HL) as [-> _]. reflexivity.
  - right. destruct (init_load_ok _ _ _ _ HL) as [Emm _]. rewrite Emm in *.
    exists (name m). split; [now apply find_module_none_iff | reflexivity].
Qed.

Lemma exit_removed_at_most_one mm module_name arg s :
  removed_at_most_one
    (registry s) (registry (snd (micro_module_exit W mm module_name arg s))).
Proof.
  destruct mm; [now left|].
  destruct (exit_cases module_name arg s)
    as [(r & _ & ->) | (e & l1 & l2 & rc & s1 & _ & E & _ & ET & [[_ ->] | [_ ->]])];
    simpl.
  - now left.
  - left. destruct (teardown_shape _ _ _ _ _ ET) as [Emm _].
    unfold registry. now rewrite Emm.
  - right. exists l1, e, l2. split; [exact E | reflexivity].
Qed.

(** C8: no two nodes of the list carry the same name, at any time.  The
    list [micro_module_setup] gives has unique names, and from a state
    with unique names each of the four operations ends in a state with
    unique names, every list it stores on the way having unique names
    too; so every state a loader gets into has unique names.
    [micro_module_init] leaves the names as they are (the node is
    overwritten in place) or puts one new name in front;
    [micro_module_exit] unlinks at most one node. *)
Theorem unique_names_invariant :
  (forall a b c d, NoDup (names (modules (micro_module_setup a b c d)))) /\
  (forall s, reachable W s -> unique_names s) /\
  (forall s mm arg,
     unique_names s ->
     (forall filename,
        let s' := snd (micro_module_init W mm filename arg s) in
        keeps_unique s s' /\ replaced_or_pushed (registry s) (registry s')) /\
     (forall module_name,
        let s' := snd (micro_module_exit W mm module_name arg s) in
        keeps_unique s s' /\ removed_at_most_one (registry s) (registry s')) /\
     (forall dir, keeps_unique s (snd (micro_module_init_all W mm dir arg s))) /\
     keeps_unique s (snd (micro_module_exit_all W mm arg s))).
Proof.
  split; [intros; constructor|].
  split.
  { intros s R. induction R.
    - constructor.
    - now apply init_keeps_unique.
    - now apply init_all_keeps_unique.
    - now apply exit_keeps_unique.
    - now apply exit_all_keeps_unique. }
  intros s mm arg U. repeat split.
  - now apply init_keeps_unique.
  - destruct (init_keeps_unique mm filename arg s U) as [_ H]. exact H.
  - apply init_replaced_or_pushed.
  - now apply exit_keeps_unique.
  - destruct (exit_keeps_unique mm module_name arg s U) as [_ H]. exact H.
  - apply exit_removed_at_most_one.
  - now apply init_all_keeps_unique.
  - destruct (init_all_keeps_unique mm dir arg s U) as [_ H]. exact H.
  - now apply exit_all_keeps_unique.
  - destruct (exit_all_keeps_unique mm arg s U) as [_ H]. exact H.
Qed.

(** *** Exit before close *)

Section Guarded.

Variable reg : list MicroModuleEntry.
Variable arg : voidp.












End Guarded.









(** The fields of the entry [init_load] gives are what the three symbols
    of its handle were found to be. *)
Lemma init_load_ok_symbols (filename : string) (s s1 : State)
      (m : MicroModuleEntry) :
  init_load W filename s = (inr m, s1) ->
  exists ti te tn,
    dlsym_fn_result W ti (dlhandler m) (init_fn_symbol (st_mm s))
    = Some (init_fn m) /\
    dlsym_fn_result W te (dlhandler m) (exit_fn_symbol (st_mm s))
    = Some (exit_fn m) /\
    dlsym_name_result W tn (dlhandler m) (name_symbol (st_mm s))
    = Some (name m).
Proof.
  unfold init_load. munfold.
  destruct (use_new_namespace (st_mm s));
    repeat match goal with
    | |- context [match ?o with Some _ => _ | None => _ end] =>
      let E := fresh "E" in destruct o eqn:E; simpl
    end;
    intros H; inversion H; subst; clear H; simpl;
    eexists _, _, _; repeat split; eassumption.
Qed.



(** *** Bulk load *)

Lemma attempts_app t1 t2 : attempts (t1 ++ t2) = attempts t1 ++ attempts t2.
Proof.
  induction t1 as [|e t1 IH]; [reflexivity|].
  destruct e; simpl; rewrite IH; reflexivity.
Qed.

Lemma attempts_dlsym syms : forallb is_dlsym syms = true -> attempts syms = [].
Proof.
  induction syms as [|e syms IH]; [reflexivity|]. simpl.
  destruct e; simpl; try discriminate; exact IH.
Qed.

Lemma attempted_refl s : attempted s s [].
Proof.
  exists []. now rewrite app_nil_r.
Qed.

Lemma attempted_trans s s1 s2 l1 l2 :
  attempted s s1 l1 -> attempted s1 s2 l2 -> attempted s s2 (l1 ++ l2).
Proof.
  intros (t1 & E1 & A1) (t2 & E2 & A2). exists (t1 ++ t2).
  rewrite E2, E1, app_assoc, attempts_app, A1, A2. auto.
Qed.

Lemma attempted_more s s1 s2 l :
  attempted s s1 l -> attempted s1 s2 [] -> attempted s s2 l.
Proof.
  intros A1 A2. rewrite <- (app_nil_r l). exact (attempted_trans _ _ _ _ _ A1 A2).
Qed.

Lemma attempted_step s s' ev :
  st_trace s' = st_trace s ++ [ev] -> attempts [ev] = [] -> attempted s s' [].
Proof.
  intros E A. exists [ev]. auto.
Qed.

Lemma attempted_teardown e arg s rc s1 :
  teardown W e arg s = (rc, s1) -> attempted s s1 [].
Proof.
  intros ET. destruct (teardown_shape _ _ _ _ _ ET) as (_ & rx & Etr).
  eexists. split; [exact Etr | reflexivity].
Qed.

Lemma attempted_init_load filename s x s1 :
  init_load W filename s = (x, s1) -> attempted s s1 [filename].
Proof.
  intros HL. destruct x as [err|m].
  - destruct (init_load_fail _ _ _ _ HL) as [_ [E | (h & syms & rc & F & E)]];
      eexists; (split; [exact E|]); [reflexivity|].
    simpl. rewrite attempts_app, (attempts_dlsym syms F). reflexivity.
  - destruct (init_load_ok _ _ _ _ HL) as [_ E].
    eexists. split; [exact E | reflexivity].
Qed.

(** One call of [micro_module_init] is one attempt, at its file. *)
Lemma init_attempted filename arg s :
  attempted s (snd (micro_module_init W MM_PTR filename arg s)) [filename].
Proof.
  destruct (init_cases filename arg s)
    as [(err & s1 & HL & ->)
       | (m & s1 & HL &
          [(old & l1 & l2 & rc & s2 & E & Hn & Hl & ET & [[_ ->] | [_ ->]])
          | (Hf & [[_ ->] | [_ ->]])])];
    pose proof (attempted_init_load _ _ _ _ HL) as A;
    try rewrite init_call_spec; cbv zeta; simpl;
    try exact A; (eapply attempted_more; [exact A|]).
  - eapply attempted_more; [eapply attempted_teardown; exact ET|].
    eapply attempted_step; reflexivity.
  - eapply attempted_more; [eapply attempted_teardown; exact ET|].
    eapply attempted_more;
      [apply (attempted_step s2 (snd (set_modules (l1 ++ m :: l2) s2))
                             (EvStore (l1 ++ m :: l2))); reflexivity|].
    eapply attempted_step; reflexivity.
  - eapply attempted_step; reflexivity.
  - eapply attempted_more;
      [apply (attempted_step s1 (log (EvMalloc true) s1) (EvMalloc true));
       reflexivity|].
    eapply attempted_more;
      [apply (attempted_step (log (EvMalloc true) s1)
                (snd (set_modules (m :: registry s1) (log (EvMalloc true) s1)))
                (EvStore (m :: registry s1))); reflexivity|].
    eapply attempted_step; reflexivity.
Qed.

(** The loop attempts a prefix of the candidate paths, in order, and all
    of them when it ends with MICRO_MODULE_OK. *)
Lemma init_all_loop_attempted arg : forall files s,
  exists done rest,
    candidates files = done ++ rest /\
    attempted s (snd (init_all_loop W arg files s)) done /\
    (fst (init_all_loop W arg files s) = MICRO_MODULE_OK -> rest = []).
Proof.
  induction files as [|fe files IH]; intros s.
  - exists [], []. repeat split. apply attempted_refl.
  - rewrite init_all_loop_cons. unfold candidates. cbn [filter].
    destruct (is_candidate fe) eqn:C; cbn [map].
    + pose proof (init_attempted (fts_path fe) arg s) as A.
      destruct (micro_module_init W MM_PTR (fts_path fe) arg s) as [err s'].
      destruct (negb (err =? MICRO_MODULE_OK)) eqn:Ee; simpl in *.
      * exists [fts_path fe], (candidates files). repeat split; [exact A|].
        intros ->. discriminate.
      * destruct (IH s') as (done & rest & Ec & Ad & Hr).
        exists (fts_path fe :: done), rest. split; [|split].
        -- fold (candidates files). rewrite Ec. reflexivity.
        -- exact (attempted_trans _ _ _ _ _ A Ad).
        -- exact Hr.
    + destruct (is_skipped_dir fe).
      * destruct (IH (log (EvFtsSetSkip (fts_path fe)) s))
          as (done & rest & Ec & Ad & Hr).
        exists done, rest. split; [exact Ec|]. split; [|exact Hr].
        change done with ([] ++ done).
        eapply attempted_trans; [|exact Ad].
        apply (attempted_step s (log (EvFtsSetSkip (fts_path fe)) s)
                              (EvFtsSetSkip (fts_path fe))); reflexivity.
      * apply IH.
Qed.

Lemma init_all_loop_app arg pre : forall post s,
  init_all_loop W arg (pre ++ post) s
  = (let (err, s1) := init_all_loop W arg pre s in
     if negb (err =? MICRO_MODULE_OK) then (err, s1)
     else init_all_loop W arg post s1).
Proof.
  induction pre as [|fe pre IH]; intros post s; [reflexivity|].
  rewrite <- app_comm_cons, !init_all_loop_cons.
  destruct (is_candidate fe).
  - destruct (micro_module_init W MM_PTR (fts_path fe) arg s) as [err s'].
    destruct (negb (err =? MICRO_MODULE_OK)) eqn:Ee; [now rewrite Ee|].
    apply IH.
  - destruct (is_skipped_dir fe); apply IH.
Qed.

Lemma init_load_fail_code filename s err s1 :
  init_load W filename s = (inl err, s1) -> err <> MICRO_MODULE_OK.
Proof.
  unfold init_load. munfold.
  destruct (use_new_namespace (st_mm s));
    repeat match goal with
    | |- context [match ?o with Some _ => _ | None => _ end] =>
      destruct o; simpl
    end;
    intros H; inversion H; discriminate.
Qed.

(** A load into an empty registry that returns MICRO_MODULE_OK leaves the
    module of the file as the only node. *)
Lemma init_on_empty_ok filename arg s s1 :
  registry s = [] ->
  micro_module_init W MM_PTR filename arg s = (MICRO_MODULE_OK, s1) ->
  exists m sA, init_load W filename s = (inr m, sA) /\ registry s1 = [m].
Proof.
  intros E H.
  destruct (init_cases filename arg s)
    as [(err & sA & HL & Eq)
       | (m & sA & HL &
          [(old & l1 & l2 & rc & s2 & E1 & Hn & Hl & ET & _)
          | (Hf & [[_ Eq] | [_ Eq]])])].
  - rewrite Eq in H. inversion H; subst.
    now elim (init_load_fail_code _ _ _ _ HL).
  - destruct (init_load_ok _ _ _ _ HL) as [Emm _].
    unfold registry in *. rewrite Emm, E in E1. now destruct l1.
  - rewrite Eq in H. discriminate.
  - exists m, sA. split; [exact HL|].
    rewrite Eq, init_call_spec in H. cbv zeta in H. inversion H; subst.
    destruct (init_load_ok _ _ _ _ HL) as [Emm _].
    unfold registry in *. simpl. now rewrite Emm, E.
Qed.

Lemma init_all_first_failure dir arg s pre fe post s1 err s2 :
  fts_open_result W (st_trace s) dir = Some (pre ++ fe :: post) ->
  init_all_loop W arg pre (log (EvFtsOpen dir (Some (pre ++ fe :: post))) s)
  = (MICRO_MODULE_OK, s1) ->
  is_candidate fe = true ->
  micro_module_init W MM_PTR (fts_path fe) arg s1 = (err, s2) ->
  err <> MICRO_MODULE_OK ->
  micro_module_init_all W MM_PTR dir arg s = (err, snd (fts_close W s2)) /\
  attempted s (snd (fts_close W s2)) (candidates pre ++ [fts_path fe]).
Proof.
  intros Ho Hpre Hc Hi Herr. rewrite init_all_unfold, Ho.
  rewrite init_all_loop_app, Hpre. simpl negb. cbv iota.
  rewrite init_all_loop_cons, Hc, Hi.
  apply Z.eqb_neq in Herr. rewrite Herr. simpl negb. cbv iota.
  rewrite Herr, andb_false_r. split; [reflexivity|].
  destruct (init_all_loop_attempted arg pre
              (log (EvFtsOpen dir (Some (pre ++ fe :: post))) s))
    as (done & rest & Ec & Ad & Hr).
  rewrite Hpre in Ad, Hr. simpl in Ad, Hr.
  rewrite (Hr eq_refl), app_nil_r in Ec. subst done.
  pose proof (init_attempted (fts_path fe) arg s1) as Ai.
  rewrite Hi in Ai. simpl in Ai.
  change (candidates pre ++ [fts_path fe])
    with ([] ++ candidates pre ++ [fts_path fe]).
  eapply attempted_trans;
    [apply (attempted_step s (log (EvFtsOpen dir (Some (pre ++ fe :: post))) s)
                           (EvFtsOpen dir (Some (pre ++ fe :: post))));
     reflexivity|].
  eapply attempted_more; [exact (attempted_trans _ _ _ _ _ Ad Ai)|].
  eapply attempted_step; reflexivity.
Qed.

(** C5: [micro_module_init_all] calls [micro_module_init] on the
    candidate paths of the walk in their order: the files it attempts are
    a prefix of the candidates, and all of them when it returns
    MICRO_MODULE_OK.  At the first candidate whose load does not return
    MICRO_MODULE_OK it returns that result, and nothing happens after the
    failed load but [fts_close]: no later path is attempted.  With the
    three candidates A, B, C on an empty registry, A loading and B not
    getting through [dlmopen] and the three [dlsym], the result is B's
    error, the attempts are A and B, and the registry holds the module of
    A only. *)
Theorem init_all_in_order_until_first_failure
        (s : State) (dir : string) (arg : voidp) :
  (forall entries,
     fts_open_result W (st_trace s) dir = Some entries ->
     let r := micro_module_init_all W MM_PTR dir arg s in
     exists done rest,
       candidates entries = done ++ rest /\
       attempted s (snd r) done /\
       (fst r = MICRO_MODULE_OK -> rest = [])) /\
  (forall pre fe post s1 err s2,
     fts_open_result W (st_trace s) dir = Some (pre ++ fe :: post) ->
     init_all_loop W arg pre (log (EvFtsOpen dir (Some (pre ++ fe :: post))) s)
     = (MICRO_MODULE_OK, s1) ->
     is_candidate fe = true ->
     micro_module_init W MM_PTR (fts_path fe) arg s1 = (err, s2) ->
     err <> MICRO_MODULE_OK ->
     micro_module_init_all W MM_PTR dir arg s = (err, snd (fts_close W s2)) /\
     attempted s (snd (fts_close W s2)) (candidates pre ++ [fts_path fe])) /\
  (forall A B C s1 err s2,
     registry s = [] ->
     fts_open_result W (st_trace s) dir = Some [A; B; C] ->
     is_candidate A = true -> is_candidate B = true -> is_candidate C = true ->
     micro_module_init W MM_PTR (fts_path A) arg
                       (log (EvFtsOpen dir (Some [A; B; C])) s)
     = (MICRO_MODULE_OK, s1) ->
     init_load W (fts_path B) s1 = (inl err, s2) ->
     let r := micro_module_init_all W MM_PTR dir arg s in
     fst r = err /\ err <> MICRO_MODULE_OK /\
     attempted s (snd r) [fts_path A; fts_path B] /\
     exists mA sA,
       init_load W (fts_path A) (log (EvFtsOpen dir (Some [A; B; C])) s)
       = (inr mA, sA) /\
       registry (snd r) = [mA]).
Proof.
  split; [|split].
  - intros entries Ho. cbv zeta. rewrite init_all_unfold, Ho.
    destruct (init_all_loop_attempted arg entries
                (log (EvFtsOpen dir (Some entries)) s))
      as (done & rest & Ec & Ad & Hr).
    destruct (init_all_loop W arg entries _) as [err s1]. simpl in *.
    exists done, rest. split; [exact Ec|]. split.
    + change done with ([] ++ done).
      eapply attempted_trans;
        [apply (attempted_step s (log (EvFtsOpen dir (Some entries)) s)
                               (EvFtsOpen dir (Some entries))); reflexivity|].
      eapply attempted_more; [exact Ad|].
      eapply attempted_step; reflexivity.
    + intros H. apply Hr.
      destruct (_ <? 0); simpl in H; [|exact H].
      destruct (err =? MICRO_MODULE_OK) eqn:Ee; [|exact H].
      now apply Z.eqb_eq in Ee.
  - intros pre fe post s1 err s2. apply init_all_first_failure.
  - intros A B C s1 err s2 E Ho CA CB CC HA HB.
    assert (HiB : micro_module_init W MM_PTR (fts_path B) arg s1 = (err, s2))
      by now rewrite init_unfold, HB.
    pose proof (init_load_fail_code _ _ _ _ HB) as Herr.
    assert (Hpre : init_all_loop W arg [A] (log (EvFtsOpen dir (Some [A; B; C])) s)
                   = (MICRO_MODULE_OK, s1)).
    { rewrite init_all_loop_cons, CA, HA. reflexivity. }
    destruct (init_all_first_failure dir arg s [A] B [C] s1 err s2
                                     Ho Hpre CB HiB Herr) as [Eq At].
    cbv zeta. rewrite Eq. simpl fst. simpl snd.
    split; [reflexivity|]. split; [exact Herr|]. split.
    + unfold candidates in At. simpl in At. rewrite CA in At. exact At.
    + destruct (init_on_empty_ok (fts_path A) arg
                  (log (EvFtsOpen dir (Some [A; B; C])) s) s1 E HA)
        as (mA & sA & HLA & Er).
      exists mA, sA. split; [exact HLA|].
      destruct (init_load_fail _ _ _ _ HB) as [Emm _].
      unfold registry in *. simpl. now rewrite Emm.
Qed.

End Facts.

(** ** The theorems at work on the concrete platform *)

(** Load [alpha], load it again, unload it, unload it again. *)
Example alpha_load_reload_unload :
  let r1 := micro_module_init demo_platform MM_PTR "plugins/a.so" 0 demo_empty in
  let r2 := micro_module_init demo_platform MM_PTR "plugins/a.so" 0 (snd r1) in
  let r3 := micro_module_exit demo_platform MM_PTR (Some "alpha"%string) 0
                              (snd r2) in
  let r4 := micro_module_exit demo_platform MM_PTR (Some "alpha"%string) 0
                              (snd r3) in
  fst r1 = MICRO_MODULE_OK /\ names (registry (snd r1)) = ["alpha"%string] /\
  fst r2 = MICRO_MODULE_OK /\ names (registry (snd r2)) = ["alpha"%string] /\
  fst r3 = MICRO_MODULE_OK /\ registry (snd r3) = [] /\
  fst r4 = MICRO_MODULE_ERROR_MODULE_NOT_REGISTERED.
Proof.
  vm_compute. repeat split.
Qed.

(** A bulk unload that stops at a handle that does not close leaves the
    node registered; a second bulk unload calls its exit function again
    and stops at the same place. *)
Example exit_all_stuck_twice :
  let r1 := micro_module_exit_all demo_platform MM_PTR 0 demo_stuck in
  let r2 := micro_module_exit_all demo_platform MM_PTR 0 (snd r1) in
  fst r1 = MICRO_MODULE_ERROR_CLOSING_MODULE /\
  registry (snd r1) = [demo_stuck_alpha] /\
  fst r2 = MICRO_MODULE_ERROR_CLOSING_MODULE /\
  st_trace (snd r2)
  = [EvExitFn 72%positive 0 0; EvDlclose 7%positive (-1);
     EvExitFn 72%positive 0 0; EvDlclose 7%positive (-1)].
Proof.
  vm_compute. repeat split.
Qed.

Lemma exit_unknown_name_not_registered_witness :
  ~ In "zeta"%string (names (registry demo_loaded)) /\
  micro_module_exit demo_platform MM_PTR (Some "zeta"%string) 0 demo_loaded
  = (MICRO_MODULE_ERROR_MODULE_NOT_REGISTERED, demo_loaded).
Proof.
  assert (H : ~ In "zeta"%string (names (registry demo_loaded))).
  { simpl. intros [H | []]. discriminate H. }
  split; [exact H|].
  exact (exit_unknown_name_not_registered demo_platform demo_loaded
                                          "zeta"%string 0 H).
Defined.

Lemma exit_checks_empty_registry_before_name_witness :
  registry demo_empty = [] /\
  micro_module_exit demo_platform MM_PTR None 0 demo_empty
  = (MICRO_MODULE_ERROR_MODULE_NOT_REGISTERED, demo_empty) /\
  fst (micro_module_exit demo_platform MM_PTR None 0 demo_loaded)
  = MICRO_MODULE_ERROR_ARG_NULL.
Proof.
  split; [reflexivity|]. split.
  - exact (proj1 (exit_checks_empty_registry_before_name
                    demo_platform demo_empty None 0) eq_refl).
  - apply (proj2 (exit_checks_empty_registry_before_name
                    demo_platform demo_loaded None 0)).
    split; [reflexivity | discriminate].
Defined.

Lemma exit_close_failure_keeps_entry_witness :
  find_module "alpha" (registry demo_stuck) = Some demo_stuck_alpha /\
  fst (teardown demo_platform demo_stuck_alpha 0 demo_stuck) <> 0 /\
  fst (micro_module_exit demo_platform MM_PTR (Some "alpha"%string) 0 demo_stuck)
  = MICRO_MODULE_ERROR_CLOSING_MODULE /\
  find_module "alpha"
    (registry (snd (micro_module_exit demo_platform MM_PTR
                                      (Some "alpha"%string) 0 demo_stuck)))
  = Some demo_stuck_alpha.
Proof.
  assert (H1 : find_module "alpha" (registry demo_stuck) = Some demo_stuck_alpha)
    by reflexivity.
  assert (H2 : fst (teardown demo_platform demo_stuck_alpha 0 demo_stuck) <> 0)
    by (vm_compute; discriminate).
  split; [exact H1|]. split; [exact H2|].
  destruct (exit_close_failure_keeps_entry demo_platform demo_stuck
              "alpha"%string 0 demo_stuck_alpha H1 H2) as (R & _ & F & _).
  split; [exact R | exact F].
Defined.

Lemma init_old_close_failure_closes_new_handle_witness :
  fst (micro_module_init demo_platform MM_PTR "plugins/a.so" 0 demo_stuck)
  = MICRO_MODULE_ERROR_CLOSING_MODULE /\
  exists rx rc rn, rc <> 0 /\
    st_trace (snd (micro_module_init demo_platform MM_PTR "plugins/a.so" 0
                                     demo_stuck))
    = load_events demo_mm "plugins/a.so"
                  (mkEntry "alpha" 11%positive 12%positive 1%positive)
      ++ [EvExitFn 72%positive 0 rx; EvDlclose 7%positive rc;
          EvDlclose 1%positive rn].
Proof.
  destruct (init_old_close_failure_closes_new_handle
              demo_platform demo_stuck
              (snd (init_load demo_platform "plugins/a.so" demo_stuck))
              "plugins/a.so" 0
              (mkEntry "alpha" 11%positive 12%positive 1%positive)
              demo_stuck_alpha)
    as (R & _ & T).
  - reflexivity.
  - reflexivity.
  - vm_compute. discriminate.
  - split; [exact R | exact T].
Defined.

Lemma init_reload_single_entry_after_teardown_witness :
  unique_names demo_loaded /\
  count_name "alpha"
    (registry (snd (micro_module_init demo_platform MM_PTR "plugins/a.so" 0
                                      demo_loaded))) = 1%nat.
Proof.
  assert (U : unique_names demo_loaded).
  { unfold unique_names. simpl. constructor; [intros []|constructor]. }
  split; [exact U|].
  exact (proj1 (init_reload_single_entry_after_teardown
                  demo_platform demo_loaded
                  (snd (init_load demo_platform "plugins/a.so" demo_loaded))
                  "plugins/a.so" 0
                  (mkEntry "alpha" 11%positive 12%positive 1%positive)
                  demo_old_alpha U eq_refl eq_refl)).
Defined.

Lemma init_nonzero_status_returned_and_registered_witness :
  fst (micro_module_init demo_platform MM_PTR "plugins/c.so" 0 demo_empty) = 5 /\
  exists m s1,
    init_load demo_platform "plugins/c.so" demo_empty = (inr m, s1) /\
    31%positive = init_fn m /\ 0 = 0 /\
    find_module (name m)
      (registry (snd (micro_module_init demo_platform MM_PTR "plugins/c.so" 0
                                        demo_empty)))
    = Some m.
Proof.
  apply (init_nonzero_status_returned_and_registered
           demo_platform demo_empty "plugins/c.so" 0
           (removelast
              (st_trace (snd (micro_module_init demo_platform MM_PTR
                                                "plugins/c.so" 0 demo_empty))))
           31%positive 0 5).
  - reflexivity.
  - discriminate.
Defined.

Lemma exit_all_empty_noop_and_repeatable_witness :
  registry demo_empty = [] /\
  fst (micro_module_exit_all demo_platform MM_PTR 0 demo_empty)
  = MICRO_MODULE_OK /\
  fst (micro_module_exit_all demo_platform MM_PTR 0 demo_loaded)
  = MICRO_MODULE_OK /\
  fst (micro_module_exit_all demo_platform MM_PTR 0
         (snd (micro_module_exit_all demo_platform MM_PTR 0 demo_loaded)))
  = MICRO_MODULE_OK.
Proof.
  destruct (exit_all_empty_noop_and_repeatable demo_platform 0 0) as [H1 H2].
  split; [reflexivity|]. split; [exact (proj1 (H1 demo_empty eq_refl))|].
  assert (Hok : fst (micro_module_exit_all demo_platform MM_PTR 0 demo_loaded)
                = MICRO_MODULE_OK) by reflexivity.
  split; [exact Hok|].
  exact (proj1 (proj2 (H2 demo_loaded Hok))).
Defined.

Lemma unique_names_invariant_witness :
  unique_names demo_loaded /\
  unique_names
    (snd (micro_module_init_all demo_platform MM_PTR "plugins" 0 demo_loaded)) /\
  unique_names
    (snd (micro_module_exit demo_platform MM_PTR (Some "alpha"%string) 0
                            demo_loaded)).
Proof.
  assert (U : unique_names demo_loaded).
  { unfold unique_names. simpl. constructor; [intros []|constructor]. }
  split; [exact U|].
  destruct (proj2 (proj2 (unique_names_invariant demo_platform))
                  demo_loaded MM_PTR 0 U)
    as (_ & He & Hia & _).
  split; [exact (proj1 (Hia "plugins"%string))|].
  exact (proj1 (proj1 (He (Some "alpha"%string)))).
Defined.

Lemma init_all_in_order_until_first_failure_witness :
  micro_module_init_all demo_platform MM_PTR "plugins" 0 demo_empty
  = (MICRO_MODULE_ERROR_LOCATING_INIT_SYMBOL,
     snd (micro_module_init_all demo_platform MM_PTR "plugins" 0 demo_empty)) /\
  attempted demo_empty
    (snd (micro_module_init_all demo_platform MM_PTR "plugins" 0 demo_empty))
    ["plugins/a.so"%string; "plugins/b.so"%string] /\
  registry
    (snd (micro_module_init_all demo_platform MM_PTR "plugins" 0 demo_empty))
  = [mkEntry "alpha" 11%positive 12%positive 1%positive].
Proof.
  destruct (init_all_in_order_until_first_failure
              demo_platform demo_empty "plugins" 0) as (_ & H2 & H3).
  split; [|split].
  - apply (H2 [demo_A] demo_B [demo_C]
              (snd (micro_module_init demo_platform MM_PTR "plugins/a.so" 0
                      (log (EvFtsOpen "plugins"
                                      (Some [demo_A; demo_B; demo_C]))
                           demo_empty)))
              MICRO_MODULE_ERROR_LOCATING_INIT_SYMBOL
              (snd (micro_module_init demo_platform MM_PTR "plugins/b.so" 0
                      (snd (micro_module_init demo_platform MM_PTR
                              "plugins/a.so" 0
                              (log (EvFtsOpen "plugins"
                                      (Some [demo_A; demo_B; demo_C]))
                                   demo_empty))))));
      try reflexivity. discriminate.
  - apply (H3 demo_A demo_B demo_C
              (snd (micro_module_init demo_platform MM_PTR "plugins/a.so" 0
                      (log (EvFtsOpen "plugins"
                                      (Some [demo_A; demo_B; demo_C]))
                           demo_empty)))
              MICRO_MODULE_ERROR_LOCATING_INIT_SYMBOL
              (snd (init_load demo_platform "plugins/b.so"
                      (snd (micro_module_init demo_platform MM_PTR
                              "plugins/a.so" 0
                              (log (EvFtsOpen "plugins"
                                      (Some [demo_A; demo_B; demo_C]))
                                   demo_empty))))));
      reflexivity.
  - destruct (H3 demo_A demo_B demo_C
              (snd (micro_module_init demo_platform MM_PTR "plugins/a.so" 0
                      (log (EvFtsOpen "plugins"
                                      (Some [demo_A; demo_B; demo_C]))
                           demo_empty)))
              MICRO_MODULE_ERROR_LOCATING_INIT_SYMBOL
              (snd (init_load demo_platform "plugins/b.so"
                      (snd (micro_module_init demo_platform MM_PTR
                              "plugins/a.so" 0
                              (log (EvFtsOpen "plugins"
                                      (Some [demo_A; demo_B; demo_C]))
                                   demo_empty))))))
      as (_ & _ & _ & mA & sA & HL & Hr);
      [reflexivity | reflexivity | reflexivity | reflexivity | reflexivity
       | reflexivity | reflexivity |].
    rewrite Hr. vm_compute in HL. inversion HL. reflexivity.
Defined.

(** In the base namespace [plugins/a.so] is opened again under the handle
    that [alpha] holds, which does not close: both calls of [dlclose] come
    after the exit function of [alpha] has returned. *)
Example reload_under_the_same_handle :
  micro_module_init demo_shared MM_PTR "plugins/a.so" 0 demo_base
  = (MICRO_MODULE_ERROR_CLOSING_MODULE,
     mkState (st_mm demo_base)
       [EvDlmopen LM_ID_BASE "plugins/a.so" (Some 7%positive);
        EvDlsymFn 7%positive "micro_module_init" (Some 71%positive);
        EvDlsymFn 7%positive "micro_module_exit" (Some 72%positive);
        EvDlsymName 7%positive "micro_module_name" (Some "alpha"%string);
        EvExitFn 72%positive 0 0;
        EvDlclose 7%positive (-1);
        EvDlclose 7%positive (-1)]).
Proof.
  reflexivity.
Qed.

(** What the stability of the symbols is for.  [demo_platform] opens
    [plugins/b.so] under the handle 2 and finds no init symbol in it, so a
    state in which a node holds the handle 2 does not have stable symbols
    there; the load gives the handle back, and no exit function has been
    called. *)
Example load_failure_on_changed_symbols :
  In demo_beta (registry demo_three) /\ dlhandler demo_beta = 2%positive /\
  ~ symbols_stable demo_platform demo_three /\
  micro_module_init demo_platform MM_PTR "plugins/b.so" 0 demo_three
  = (MICRO_MODULE_ERROR_LOCATING_INIT_SYMBOL,
     mkState (st_mm demo_three)
       [EvDlmopen LM_ID_NEWLM "plugins/b.so" (Some 2%positive);
        EvDlsymFn 2%positive "micro_module_init" None;
        EvDlclose 2%positive 0]).
Proof.
  assert (H : In demo_beta (registry demo_three)) by (simpl; auto).
  split; [exact H|]. split; [reflexivity|]. split; [|reflexivity].
  intros S. destruct (S demo_beta [] H) as (Hi & _). now apply Hi.
Qed.


(** * Further properties of the four operations *)

Section Outcomes.

Variable W : Platform.

(** [init_load] with its calls written out. *)
Lemma init_load_unfold (filename : string) (s : State) :
  init_load W filename s
  = (let c := st_mm s in
     let oh := dlmopen_result W (st_trace s) (lmid_of c) filename in
     let s1 := log (EvDlmopen (lmid_of c) filename oh) s in
     match oh with
     | None => (inl MICRO_MODULE_ERROR_OPENING_MODULE, s1)
     | Some h =>
       let ofi := dlsym_fn_result W (st_trace s1) h (init_fn_symbol c) in
       let s2 := log (EvDlsymFn h (init_fn_symbol c) ofi) s1 in
       match ofi with
       | None =>
         (inl MICRO_MODULE_ERROR_LOCATING_INIT_SYMBOL,
          log (EvDlclose h (dlclose_result W (st_trace s2) h)) s2)
       | Some fi =>
         let ofe := dlsym_fn_result W (st_trace s2) h (exit_fn_symbol c) in
         let s3 := log (EvDlsymFn h (exit_fn_symbol c) ofe) s2 in
         match ofe with
         | None =>
           (inl MICRO_MODULE_ERROR_LOCATING_EXIT_SYMBOL,
            log (EvDlclose h (dlclose_result W (st_trace s3) h)) s3)
         | Some fe =>
           let onm := dlsym_name_result W (st_trace s3) h (name_symbol c) in
           let s4 := log (EvDlsymName h (name_symbol c) onm) s3 in
           match onm with
           | None =>
             (inl MICRO_MODULE_ERROR_LOCATING_NAME_SYMBOL,
              log (EvDlclose h (dlclose_result W (st_trace s4) h)) s4)
           | Some nm => (inr (mkEntry nm fi fe h), s4)
           end
         end
       end
     end).
Proof.
  unfold init_load, lmid_of. munfold.
  destruct (use_new_namespace (st_mm s));
    repeat match goal with
    | |- context [match ?o with Some _ => _ | None => _ end] =>
      destruct o; simpl
    end; reflexivity.
Qed.

Lemma init_load_fail_outcome (filename : string) (arg : voidp)
      (s s1 : State) (err : Z) :
  init_load W filename s = (inl err, s1) ->
  st_mm s1 = st_mm s /\
  exists t, st_trace s1 = st_trace s ++ t /\
            init_outcome (st_mm s) filename arg err (st_mm s) t.
Proof.
  rewrite init_load_unfold. cbv zeta.
  repeat match goal with
  | |- context [match ?o with Some _ => _ | None => _ end] =>
    destruct o; simpl
  end;
  intros H; inversion H; subst; clear H; simpl;
  (split; [reflexivity|]);
  (eexists; split;
   [repeat rewrite <- app_assoc; simpl; reflexivity | constructor]).
Qed.

(** Every call of [micro_module_init] ends in one of the eight ways. *)
Lemma init_has_outcome (filename : string) (arg : voidp) (s : State) :
  let r := micro_module_init W MM_PTR filename arg s in
  exists t, st_trace (snd r) = st_trace s ++ t /\
            init_outcome (st_mm s) filename arg (fst r) (st_mm (snd r)) t.
Proof.
  cbv zeta.
  destruct (init_cases W filename arg s)
    as [(err & s1 & HL & ->)
       | (m & s1 & HL &
          [(old & l1 & l2 & rc & s2 & E & Hn & Hl & ET & [[Hrc ->] | [Hrc ->]])
          | (Hf & [[_ ->] | [_ ->]])])].
  - destruct (init_load_fail_outcome _ arg _ _ _ HL) as (Emm & t & Et & O).
    simpl. exists t. rewrite Emm. auto.
  - destruct (init_load_ok _ _ _ _ _ HL) as [Emm Etr].
    destruct (teardown_shape _ _ _ _ _ _ ET) as (Emm2 & rx & Etr2).
    unfold registry in E. rewrite Emm in E.
    unfold dlclose, log. simpl. eexists. split.
    + rewrite Etr2, Etr. repeat rewrite <- app_assoc. simpl. reflexivity.
    + rewrite Emm2, Emm.
      apply (InitOldNotClosed _ _ _ m old l1 l2 rx rc _ E Hl Hn Hrc).
  - destruct (init_load_ok _ _ _ _ _ HL) as [Emm Etr].
    destruct (teardown_shape _ _ _ _ _ _ ET) as (Emm2 & rx & Etr2).
    unfold registry in E. rewrite Emm in E. subst rc.
    rewrite init_call_spec. cbv zeta. simpl.
    rewrite Etr2, Etr, Emm2, Emm. repeat rewrite <- app_assoc. simpl.
    eexists. split; [reflexivity|].
    apply (InitReplaced _ _ _ m old l1 l2 rx _ E Hl Hn).
  - destruct (init_load_ok _ _ _ _ _ HL) as [Emm Etr].
    unfold registry in Hf. rewrite Emm in Hf. simpl. eexists. split.
    + rewrite Etr. repeat rewrite <- app_assoc. simpl. reflexivity.
    + rewrite Emm. now apply InitNoMemory.
  - destruct (init_load_ok _ _ _ _ _ HL) as [Emm Etr].
    unfold registry in *. rewrite Emm in Hf.
    rewrite init_call_spec. cbv zeta. simpl.
    rewrite Etr, Emm. repeat rewrite <- app_assoc. simpl.
    eexists. split; [reflexivity|]. now apply InitPushed.
Qed.

(** Every call of [micro_module_exit] ends in one of the five ways. *)
Lemma exit_has_outcome (module_name : option string) (arg : voidp) (s : State) :
  let r := micro_module_exit W MM_PTR module_name arg s in
  exists t, st_trace (snd r) = st_trace s ++ t /\
            exit_outcome (st_mm s) module_name arg (fst r) (st_mm (snd r)) t.
Proof.
  cbv zeta.
  destruct (modules (st_mm s)) as [|head next] eqn:Em.
  { exists []. rewrite app_nil_r. unfold micro_module_exit. munfold.
    rewrite Em. simpl. split; [reflexivity | now apply ExitEmpty]. }
  assert (Hne : modules (st_mm s) <> []) by (rewrite Em; discriminate).
  destruct module_name as [n|].
  - destruct (find_module n (registry s)) as [e|] eqn:Hf.
    + destruct (exit_found W s n arg e Hf) as (l1 & l2 & E & Hl & Eq).
      destruct (find_module_split _ _ _ Hf) as (_ & _ & _ & Hn & _). subst n.
      rewrite Eq. destruct (teardown W e arg s) as [rc s1] eqn:ET.
      destruct (teardown_shape _ _ _ _ _ _ ET) as (Emm & rx & Etr).
      destruct (rc =? 0) eqn:Erc; simpl.
      * apply Z.eqb_eq in Erc. subst rc. eexists. split.
        -- rewrite Etr. repeat rewrite <- app_assoc. simpl. reflexivity.
        -- rewrite Emm. exact (ExitUnlinked _ _ _ e l1 l2 rx eq_refl E Hl).
      * apply Z.eqb_neq in Erc. eexists. split; [exact Etr|].
        rewrite Emm. exact (ExitNotClosed _ _ _ e l1 l2 rx rc eq_refl E Hl Erc).
    + rewrite exit_unknown_name_lemma by now apply find_module_none_iff.
      exists []. rewrite app_nil_r. simpl. split; [reflexivity|].
      now apply (ExitUnknown _ _ _ n).
  - exists []. rewrite app_nil_r. unfold micro_module_exit. munfold.
    rewrite Em. simpl. split; [reflexivity | now apply ExitNullName].
Qed.

End Outcomes.

Section Further.

Variable W : Platform.

(** *** Reading a trace *)

Lemma exit_calls_app t1 t2 : exit_calls (t1 ++ t2) = exit_calls t1 ++ exit_calls t2.
Proof.
  induction t1 as [|e t1 IH]; [reflexivity|].
  destruct e; simpl; rewrite IH; reflexivity.
Qed.

Lemma init_calls_app t1 t2 : init_calls (t1 ++ t2) = init_calls t1 ++ init_calls t2.
Proof.
  induction t1 as [|e t1 IH]; [reflexivity|].
  destruct e; simpl; rewrite IH; reflexivity.
Qed.

Lemma closes_app t1 t2 : closes (t1 ++ t2) = closes t1 ++ closes t2.
Proof.
  induction t1 as [|e t1 IH]; [reflexivity|].
  destruct e; simpl; rewrite IH; reflexivity.
Qed.

Lemma mallocs_app t1 t2 : mallocs (t1 ++ t2) = (mallocs t1 + mallocs t2)%nat.
Proof.
  induction t1 as [|e t1 IH]; [reflexivity|].
  destruct e as [| | | | | |[|]| | | | |]; simpl; rewrite IH; reflexivity.
Qed.

Lemma frees_app t1 t2 : frees (t1 ++ t2) = (frees t1 + frees t2)%nat.
Proof.
  induction t1 as [|e t1 IH]; [reflexivity|].
  destruct e; simpl; rewrite IH; reflexivity.
Qed.

Lemma skips_app t1 t2 : skips (t1 ++ t2) = skips t1 ++ skips t2.
Proof.
  induction t1 as [|e t1 IH]; [reflexivity|].
  destruct e; simpl; rewrite IH; reflexivity.
Qed.

(** *** Bulk unload, node by node *)

Lemma exit_all_loop_visits (arg : voidp) : forall it s,
  registry s = it ->
  let r := exit_all_loop W arg it s in
  exists t,
    st_trace (snd r) = st_trace s ++ t /\
    ((fst r = MICRO_MODULE_OK /\ registry (snd r) = [] /\
      exit_calls t = map exit_fn it /\
      closes t = map (fun e => (dlhandler e, 0)) it /\
      frees t = List.length it) \/
     (fst r = MICRO_MODULE_ERROR_CLOSING_MODULE /\
      exists done e rest rc,
        it = done ++ e :: rest /\ registry (snd r) = e :: rest /\
        exit_calls t = map exit_fn (done ++ [e]) /\
        closes t = map (fun e => (dlhandler e, 0)) done ++ [(dlhandler e, rc)] /\
        rc <> 0 /\ frees t = List.length done)).
Proof.
  induction it as [|e next IH]; intros s E; cbv zeta.
  - exists []. rewrite app_nil_r. split; [reflexivity|]. left. simpl. auto.
  - rewrite exit_all_loop_cons, (exit_head W e next arg s E).
    destruct (teardown W e arg s) as [rc s1] eqn:ET.
    destruct (teardown_shape _ _ _ _ _ _ ET) as (Emm & rx & Etr).
    destruct (rc =? 0) eqn:Erc; cbn [negb].
    + apply Z.eqb_eq in Erc. subst rc.
      set (s' := log EvFree (snd (set_modules next s1))).
      change (negb (MICRO_MODULE_OK =? MICRO_MODULE_OK)) with false. cbv iota.
      assert (Etr' : st_trace s'
                     = st_trace s ++ [EvExitFn (exit_fn e) arg rx;
                                      EvDlclose (dlhandler e) 0;
                                      EvStore next; EvFree]).
      { unfold s'. simpl. rewrite Etr. repeat rewrite <- app_assoc. reflexivity. }
      destruct (IH s' eq_refl) as (t & Et & H).
      exists ([EvExitFn (exit_fn e) arg rx; EvDlclose (dlhandler e) 0;
               EvStore next; EvFree] ++ t).
      split; [rewrite Et, Etr', <- app_assoc; reflexivity|].
      rewrite exit_calls_app, closes_app, frees_app. simpl.
      destruct H as [(R & Er & Hx & Hc & Hf)
                    | (R & done & x & rest & rc & Ei & Er & Hx & Hc & Hrc & Hf)].
      * left. rewrite Hx, Hc, Hf. repeat split; auto.
      * right. split; [exact R|]. exists (e :: done), x, rest, rc.
        rewrite Hx, Hc, Hf. subst next. simpl. repeat split; auto.
    + apply Z.eqb_neq in Erc. simpl. eexists. split; [exact Etr|]. right.
      split; [reflexivity|]. exists [], e, next, rc. simpl.
      unfold registry in *. rewrite Emm. repeat split; auto.
Qed.

(** X11: a bulk unload goes through the list from its head (the module
    loaded last) and tears each node down once: exit function, [dlclose],
    unlink, free.  It returns MICRO_MODULE_OK with an empty list when every
    [dlclose] answers 0; at the first one that does not it returns
    MICRO_MODULE_ERROR_CLOSING_MODULE and the list is what is left, the node
    that did not close first.  With a non-NULL structure it returns nothing
    else. *)
Theorem exit_all_visits_in_order (s : State) (arg : voidp) :
  let r := micro_module_exit_all W MM_PTR arg s in
  exists t,
    st_trace (snd r) = st_trace s ++ t /\
    ((fst r = MICRO_MODULE_OK /\ registry (snd r) = [] /\
      exit_calls t = map exit_fn (registry s) /\
      closes t = map (fun e => (dlhandler e, 0)) (registry s) /\
      frees t = List.length (registry s)) \/
     (fst r = MICRO_MODULE_ERROR_CLOSING_MODULE /\
      exists done e rest rc,
        registry s = done ++ e :: rest /\ registry (snd r) = e :: rest /\
        exit_calls t = map exit_fn (done ++ [e]) /\
        closes t = map (fun e => (dlhandler e, 0)) done ++ [(dlhandler e, rc)] /\
        rc <> 0 /\ frees t = List.length done)).
Proof.
  cbv zeta. rewrite exit_all_unfold.
  destruct (exit_all_loop_visits arg (registry s) s eq_refl) as (t & Et & H).
  destruct (exit_all_loop W arg (registry s) s) as [err s'].
  simpl in Et, H.
  destruct H as [(R & Er & Hx & Hc & Hf) | (R & H)]; subst err; simpl.
  - exists (t ++ [EvStore []]). split; [now rewrite Et, app_assoc|].
    left. rewrite exit_calls_app, closes_app, frees_app. simpl.
    rewrite !app_nil_r, Nat.add_0_r. repeat split; auto.
  - exists t. split; [exact Et|]. right. auto.
Qed.

(** *** NULL structure and result codes *)

Lemma exit_codes (module_name : option string) (arg : voidp) (s : State) :
  let r := fst (micro_module_exit W MM_PTR module_name arg s) in
  r = MICRO_MODULE_ERROR_MODULE_NOT_REGISTERED \/
  r = MICRO_MODULE_ERROR_ARG_NULL \/
  r = MICRO_MODULE_ERROR_CLOSING_MODULE \/ r = MICRO_MODULE_OK.
Proof.
  cbv zeta. destruct (exit_has_outcome W module_name arg s) as (t & _ & O).
  remember (fst (micro_module_exit W MM_PTR module_name arg s)) as r.
  remember (st_mm (snd (micro_module_exit W MM_PTR module_name arg s))) as c'.
  clear Heqr Heqc'. destruct O; auto.
Qed.

(** X1: with a NULL structure each of the four operations returns
    MICRO_MODULE_ERROR_IS_NULL and does nothing at all; the two unload
    operations return this code for no other reason. *)
Theorem null_mm_is_rejected (s : State) (arg : voidp) :
  (forall filename,
     micro_module_init W MM_NULL filename arg s
     = (MICRO_MODULE_ERROR_IS_NULL, s)) /\
  (forall dir,
     micro_module_init_all W MM_NULL dir arg s
     = (MICRO_MODULE_ERROR_IS_NULL, s)) /\
  (forall module_name,
     micro_module_exit W MM_NULL module_name arg s
     = (MICRO_MODULE_ERROR_IS_NULL, s)) /\
  micro_module_exit_all W MM_NULL arg s = (MICRO_MODULE_ERROR_IS_NULL, s) /\
  (forall mm module_name,
     fst (micro_module_exit W mm module_name arg s)
     = MICRO_MODULE_ERROR_IS_NULL <-> mm = MM_NULL) /\
  (forall mm,
     fst (micro_module_exit_all W mm arg s)
     = MICRO_MODULE_ERROR_IS_NULL <-> mm = MM_NULL).
Proof.
  repeat split; try reflexivity.
  - destruct mm; [reflexivity|]. intros H.
    pose proof (exit_codes module_name arg s) as C. cbv zeta in C.
    rewrite H in C. destruct C as [C|[C|[C|C]]]; discriminate.
  - intros ->. reflexivity.
  - destruct mm; [reflexivity|]. intros H.
    destruct (exit_all_visits_in_order s arg) as (t & _ & [[C _] | [C _]]);
      rewrite H in C; discriminate.
  - intros ->. reflexivity.
Qed.

(** *** A single unload *)

Lemma find_module_without n (e : MicroModuleEntry) l1 l2 :
  name e <> n -> find_module n (l1 ++ e :: l2) = find_module n (l1 ++ l2).
Proof.
  intros H. unfold find_module. induction l1 as [|x l1 IH]; simpl.
  - apply String.eqb_neq in H. now rewrite H.
  - now rewrite IH.
Qed.

Lemma exit_success (s : State) (n : string) (arg : voidp) (e : MicroModuleEntry) :
  find_module n (registry s) = Some e ->
  fst (teardown W e arg s) = 0 ->
  let r := micro_module_exit W MM_PTR (Some n) arg s in
  fst r = MICRO_MODULE_OK /\
  exists l1 l2 rx,
    registry s = l1 ++ e :: l2 /\ find_module n l1 = None /\
    st_mm (snd r) = with_modules (l1 ++ l2) (st_mm s) /\
    st_trace (snd r)
    = st_trace s ++ [EvExitFn (exit_fn e) arg rx; EvDlclose (dlhandler e) 0;
                     EvStore (l1 ++ l2); EvFree] /\
    (unique_names s -> find_module n (l1 ++ l2) = None).
Proof.
  intros Hf Hrc. destruct (exit_found W s n arg e Hf) as (l1 & l2 & E & Hl & Eq).
  destruct (find_module_split _ _ _ Hf) as (_ & _ & _ & Hn & _).
  cbv zeta. rewrite Eq. clear Eq.
  destruct (teardown W e arg s) as [rc s1] eqn:ET.
  destruct (teardown_shape _ _ _ _ _ _ ET) as (Emm & rx & Etr).
  simpl in Hrc. subst rc. simpl. split; [reflexivity|].
  exists l1, l2, rx. split; [exact E|]. split; [exact Hl|].
  split; [now rewrite Emm|]. split.
  - rewrite Etr. repeat rewrite <- app_assoc. reflexivity.
  - intros U. apply find_module_none_iff.
    unfold unique_names in U. rewrite E in U. unfold names in *.
    rewrite map_app in *. simpl in U. rewrite Hn in U.
    now apply NoDup_remove_2 in U.
Qed.

(** X2: unloading a registered name whose handle closes returns
    MICRO_MODULE_OK after exactly four steps: the exit function of the
    first node with that name, [dlclose] of its handle, the store that
    unlinks it and [free].  The other nodes stay, in their order, and with
    unique names the name is not registered any more. *)
Theorem exit_success_unlinks_first_match
        (s : State) (n : string) (arg : voidp) (e : MicroModuleEntry) :
  find_module n (registry s) = Some e ->
  fst (teardown W e arg s) = 0 ->
  let r := micro_module_exit W MM_PTR (Some n) arg s in
  fst r = MICRO_MODULE_OK /\
  exists l1 l2 rx,
    registry s = l1 ++ e :: l2 /\ find_module n l1 = None /\
    st_mm (snd r) = with_modules (l1 ++ l2) (st_mm s) /\
    st_trace (snd r)
    = st_trace s ++ [EvExitFn (exit_fn e) arg rx; EvDlclose (dlhandler e) 0;
                     EvStore (l1 ++ l2); EvFree] /\
    (unique_names s -> find_module n (l1 ++ l2) = None).
Proof.
  exact (exit_success s n arg e).
Qed.

(** X3: an unload touches the node it is asked for and nothing else.  Every
    other name finds afterwards what it found before; no file is opened, no
    init function called, no node allocated; at most one exit function is
    called and at most one handle closed, those of the first node with the
    given name. *)
Theorem exit_leaves_other_modules
        (s : State) (mm : mm_ref) (module_name : option string) (arg : voidp) :
  let r := micro_module_exit W mm module_name arg s in
  (forall n', module_name <> Some n' ->
              find_module n' (registry (snd r)) = find_module n' (registry s)) /\
  exists t,
    st_trace (snd r) = st_trace s ++ t /\
    attempts t = [] /\ init_calls t = [] /\ mallocs t = 0%nat /\
    ((exit_calls t = [] /\ closes t = []) \/
     exists n e rc,
       module_name = Some n /\ find_module n (registry s) = Some e /\
       exit_calls t = [exit_fn e] /\ closes t = [(dlhandler e, rc)]).
Proof.
  cbv zeta. destruct mm.
  { split; [reflexivity|]. exists []. simpl. rewrite app_nil_r. auto 10. }
  destruct (exit_has_outcome W module_name arg s) as (t & Et & O).
  unfold registry.
  remember (fst (micro_module_exit W MM_PTR module_name arg s)) as r.
  remember (st_mm (snd (micro_module_exit W MM_PTR module_name arg s))) as c'.
  clear Heqr Heqc'.
  destruct O as [E | E Hn | n E Hn Hf | e l1 l2 rx rc Hn E Hl Hrc
                | e l1 l2 rx Hn E Hl];
    (split; [|eexists; split; [exact Et|]; simpl; repeat split; auto]);
    try reflexivity.
  - right. exists (name e), e, rc. repeat split; auto.
    fold (registry s). unfold registry. rewrite E.
    now apply find_module_app_first.
  - intros n' Hne. simpl. rewrite E. symmetry. apply find_module_without.
    intros Hx. apply Hne. now rewrite Hn, Hx.
  - right. exists (name e), e, 0. repeat split; auto.
    rewrite E. now apply find_module_app_first.
Qed.

(** *** A single load *)

Lemma with_modules_same (c : MicroModule) : with_modules (modules c) c = c.
Proof.
  now destruct c.
Qed.

Lemma init_pushed
      (s s1 : State) (filename : string) (arg : voidp) (m : MicroModuleEntry) :
  init_load W filename s = (inr m, s1) ->
  ~ In (name m) (names (registry s)) ->
  malloc_result W (st_trace s1) = true ->
  let r := micro_module_init W MM_PTR filename arg s in
  st_mm (snd r) = with_modules (m :: registry s) (st_mm s) /\
  st_trace (snd r)
  = st_trace s ++ load_events (st_mm s) filename m
    ++ [EvMalloc true; EvStore (m :: registry s);
        EvInitFn (init_fn m) arg (fst r)].
Proof.
  intros HL Hn Hm. destruct (init_load_ok _ _ _ _ _ HL) as [Emm Etr].
  assert (Hf : find_module (name m) (registry s1) = None).
  { apply find_module_none_iff. unfold registry. now rewrite Emm. }
  cbv zeta. rewrite init_unfold, HL, (init_register_absent W s1 m arg Hf).
  unfold MICRO_MODULE_MALLOC. cbv zeta. rewrite Hm. simpl negb. cbv iota.
  rewrite init_call_spec. cbv zeta. unfold registry. simpl.
  rewrite Etr, Emm. repeat rewrite <- app_assoc. simpl. auto.
Qed.

(** X4: a file that resolves to a name not yet registered gets a new node
    at the head of the list, in front of the nodes that were there; the
    init function is called after the node is linked and what it returns is
    the result. *)
Theorem init_new_name_pushed_at_head
        (s s1 : State) (filename : string) (arg : voidp) (m : MicroModuleEntry) :
  init_load W filename s = (inr m, s1) ->
  ~ In (name m) (names (registry s)) ->
  malloc_result W (st_trace s1) = true ->
  let r := micro_module_init W MM_PTR filename arg s in
  st_mm (snd r) = with_modules (m :: registry s) (st_mm s) /\
  st_trace (snd r)
  = st_trace s ++ load_events (st_mm s) filename m
    ++ [EvMalloc true; EvStore (m :: registry s);
        EvInitFn (init_fn m) arg (fst r)].
Proof.
  exact (init_pushed s s1 filename arg m).
Qed.

(** X6: when [malloc] returns NULL for the new node the result is
    MICRO_MODULE_ERROR_ALLOCATING_MEMORY and the loader's structure is
    unchanged.  Nothing is done after [malloc]: the handle just opened is
    not given back to [dlclose], and no entry point is called. *)
Theorem init_alloc_failure_leaves_handle_open
        (s s1 : State) (filename : string) (arg : voidp) (m : MicroModuleEntry) :
  init_load W filename s = (inr m, s1) ->
  ~ In (name m) (names (registry s)) ->
  malloc_result W (st_trace s1) = false ->
  let r := micro_module_init W MM_PTR filename arg s in
  fst r = MICRO_MODULE_ERROR_ALLOCATING_MEMORY /\
  st_mm (snd r) = st_mm s /\
  st_trace (snd r)
  = st_trace s ++ load_events (st_mm s) filename m ++ [EvMalloc false] /\
  closes (load_events (st_mm s) filename m ++ [EvMalloc false]) = [].
Proof.
  intros HL Hn Hm. destruct (init_load_ok _ _ _ _ _ HL) as [Emm Etr].
  assert (Hf : find_module (name m) (registry s1) = None).
  { apply find_module_none_iff. unfold registry. now rewrite Emm. }
  cbv zeta. rewrite init_unfold, HL, (init_register_absent W s1 m arg Hf).
  unfold MICRO_MODULE_MALLOC. cbv zeta. rewrite Hm. simpl.
  rewrite Etr, Emm. repeat rewrite <- app_assoc. auto.
Qed.

(** X5: when [dlmopen] or one of the three [dlsym] returns NULL the load
    stops there.  The result is the error code of that step, the loader's
    structure is unchanged and no entry point is called.  The symbols are
    looked up in the order init, exit, name, none after a missing one, and
    whenever the file had been opened the last call is [dlclose] of its
    handle. *)
Theorem init_load_failure_releases_handle
        (s : State) (filename : string) (arg : voidp) (t : trace) :
  let r := micro_module_init W MM_PTR filename arg s in
  let c := st_mm s in
  st_trace (snd r) = st_trace s ++ t ->
  existsb is_null_answer t = true ->
  st_mm (snd r) = c /\ init_calls t = [] /\ exit_calls t = [] /\
  ((fst r = MICRO_MODULE_ERROR_OPENING_MODULE /\
    t = [EvDlmopen (lmid_of c) filename None]) \/
   (exists h rc,
       fst r = MICRO_MODULE_ERROR_LOCATING_INIT_SYMBOL /\
       t = [EvDlmopen (lmid_of c) filename (Some h);
            EvDlsymFn h (init_fn_symbol c) None;
            EvDlclose h rc]) \/
   (exists h fi rc,
       fst r = MICRO_MODULE_ERROR_LOCATING_EXIT_SYMBOL /\
       t = [EvDlmopen (lmid_of c) filename (Some h);
            EvDlsymFn h (init_fn_symbol c) (Some fi);
            EvDlsymFn h (exit_fn_symbol c) None;
            EvDlclose h rc]) \/
   (exists h fi fe rc,
       fst r = MICRO_MODULE_ERROR_LOCATING_NAME_SYMBOL /\
       t = [EvDlmopen (lmid_of c) filename (Some h);
            EvDlsymFn h (init_fn_symbol c) (Some fi);
            EvDlsymFn h (exit_fn_symbol c) (Some fe);
            EvDlsymName h (name_symbol c) None;
            EvDlclose h rc])).
Proof.
  cbv zeta. intros Et Hnull.
  destruct (init_has_outcome W filename arg s) as (t' & Et' & O).
  cbv zeta in Et', O. rewrite Et in Et'. apply app_inv_head in Et'. subst t'.
  remember (fst (micro_module_init W MM_PTR filename arg s)) as r.
  remember (st_mm (snd (micro_module_init W MM_PTR filename arg s))) as c'.
  clear Heqr Heqc' Et.
  destruct O; try (unfold load_events in Hnull; simpl in Hnull; discriminate);
    (split; [reflexivity|]); (split; [reflexivity|]); (split; [reflexivity|]).
  - left. auto.
  - right. left. eauto.
  - right. right. left. eauto.
  - right. right. right. eauto 6.
Qed.

(** X7: the init function is called at most once in a load.  When it is
    called, what it returned is the result and the module is registered.
    When it is not, the result is one of six error codes and the loader's
    structure is unchanged.  So MICRO_MODULE_OK means: registered, and
    initialised with status 0. *)
Theorem init_result_is_status_or_error
        (s : State) (filename : string) (arg : voidp) (t : trace) :
  let r := micro_module_init W MM_PTR filename arg s in
  st_trace (snd r) = st_trace s ++ t ->
  ((exists m,
       init_calls t = [(init_fn m, fst r)] /\
       find_module (name m) (registry (snd r)) = Some m /\
       In (EvDlsymName (dlhandler m) (name_symbol (st_mm s)) (Some (name m))) t) \/
   (init_calls t = [] /\ st_mm (snd r) = st_mm s /\
    In (fst r) [MICRO_MODULE_ERROR_OPENING_MODULE;
                MICRO_MODULE_ERROR_LOCATING_INIT_SYMBOL;
                MICRO_MODULE_ERROR_LOCATING_EXIT_SYMBOL;
                MICRO_MODULE_ERROR_LOCATING_NAME_SYMBOL;
                MICRO_MODULE_ERROR_CLOSING_MODULE;
                MICRO_MODULE_ERROR_ALLOCATING_MEMORY])) /\
  (fst r = MICRO_MODULE_OK ->
   exists m,
     init_calls t = [(init_fn m, 0)] /\
     find_module (name m) (registry (snd r)) = Some m).
Proof.
  cbv zeta. intros Et.
  destruct (init_has_outcome W filename arg s) as (t' & Et' & O).
  cbv zeta in Et', O. rewrite Et in Et'. apply app_inv_head in Et'. subst t'.
  unfold registry.
  remember (fst (micro_module_init W MM_PTR filename arg s)) as r.
  remember (st_mm (snd (micro_module_init W MM_PTR filename arg s))) as c'.
  clear Heqr Heqc' Et.
  destruct O as [ | | | | m old l1 l2 rx rc rn E Hl Hn Hrc
                | m old l1 l2 rx v E Hl Hn | m Hf | m v Hf ];
    (split; [|try (intros H; discriminate H)]);
    try (right; simpl; auto 10; fail).
  - left. exists m. simpl. repeat split; auto 10.
    now apply find_module_app_first.
  - intros ->. exists m. simpl. split; [reflexivity|].
    now apply find_module_app_first.
  - left. exists m. simpl. repeat split; auto 10.
    unfold find_module. simpl. now rewrite String.eqb_refl.
  - intros ->. exists m. simpl. split; [reflexivity|].
    unfold find_module. simpl. now rewrite String.eqb_refl.
Qed.

Lemma find_module_replaced n (m old : MicroModuleEntry) l1 l2 :
  name old = name m -> name m <> n ->
  find_module n (l1 ++ m :: l2) = find_module n (l1 ++ old :: l2).
Proof.
  intros Hn Hne. rewrite !find_module_without; congruence.
Qed.

(** X8: a load touches the node of the name the file resolves to and
    nothing else.  Every name the name symbol did not give finds afterwards
    what it found before; no node is freed; at most one exit function is
    called, that of the node registered under the resolved name. *)
Theorem init_leaves_other_modules
        (s : State) (mm : mm_ref) (filename : string) (arg : voidp) :
  let r := micro_module_init W mm filename arg s in
  exists t,
    st_trace (snd r) = st_trace s ++ t /\
    (forall n', (forall h symbol, ~ In (EvDlsymName h symbol (Some n')) t) ->
                find_module n' (registry (snd r)) = find_module n' (registry s)) /\
    frees t = 0%nat /\
    (exit_calls t = [] \/
     exists n old h symbol,
       In (EvDlsymName h symbol (Some n)) t /\
       find_module n (registry s) = Some old /\
       exit_calls t = [exit_fn old]).
Proof.
  cbv zeta. destruct mm.
  { exists []. simpl. rewrite app_nil_r. auto. }
  destruct (init_has_outcome W filename arg s) as (t & Et & O).
  cbv zeta in Et, O. exists t. split; [exact Et|]. unfold registry.
  remember (fst (micro_module_init W MM_PTR filename arg s)) as r.
  remember (st_mm (snd (micro_module_init W MM_PTR filename arg s))) as c'.
  clear Heqr Heqc' Et.
  destruct O as [ | | | | m old l1 l2 rx rc rn E Hl Hn Hrc
                | m old l1 l2 rx v E Hl Hn | m Hf | m v Hf ];
    try (simpl; auto; fail).
  - split; [reflexivity|]. split; [reflexivity|]. right.
    exists (name m), old, (dlhandler m), (name_symbol (st_mm s)).
    split; [simpl; auto 10|]. split; [|reflexivity].
    rewrite E. apply find_module_app_first; assumption.
  - split; [|split; [reflexivity|]].
    + intros n' Hn'. simpl. rewrite E. apply find_module_replaced; [exact Hn|].
      intros Hx. apply (Hn' (dlhandler m) (name_symbol (st_mm s))).
      rewrite <- Hx. simpl. auto 10.
    + right. exists (name m), old, (dlhandler m), (name_symbol (st_mm s)).
      split; [simpl; auto 10|]. split; [|reflexivity].
      rewrite E. apply find_module_app_first; assumption.
  - split; [|split; [reflexivity|left; reflexivity]].
    intros n' Hn'. simpl. unfold find_module. simpl.
    destruct (String.eqb (name m) n') eqn:Ex; [|reflexivity].
    apply String.eqb_eq in Ex. exfalso.
    apply (Hn' (dlhandler m) (name_symbol (st_mm s))).
    rewrite <- Ex. simpl. auto 10.
Qed.

(** *** From the single operations to the bulk ones *)

Section Lift.

Variable R : State -> State -> Prop.
Hypothesis R_refl : forall s, R s s.
Hypothesis R_trans : forall s s1 s2, R s s1 -> R s1 s2 -> R s s2.

Lemma lift_exit_all :
  (forall n arg s, R s (snd (micro_module_exit W MM_PTR n arg s))) ->
  (forall s, registry s = [] -> R s (snd (set_modules [] s))) ->
  forall mm arg s, R s (snd (micro_module_exit_all W mm arg s)).
Proof.
  intros Hexit Hclear mm arg s. destruct mm; [apply R_refl|].
  rewrite exit_all_unfold.
  assert (L : forall it s0, R s0 (snd (exit_all_loop W arg it s0))).
  { induction it as [|e next IH]; intros s0; [apply R_refl|].
    rewrite exit_all_loop_cons.
    pose proof (Hexit (Some (name e)) arg s0) as H.
    destruct (micro_module_exit W MM_PTR (Some (name e)) arg s0) as [err s'].
    destruct (negb _); simpl in *; [exact H|].
    eapply R_trans; [exact H | apply IH]. }
  pose proof (L (registry s) s) as H.
  pose proof (exit_all_loop_ok W arg (registry s) s eq_refl) as Hok.
  destruct (exit_all_loop W arg (registry s) s) as [err s'].
  destruct (err =? MICRO_MODULE_OK) eqn:E; simpl in *; [|exact H].
  apply Z.eqb_eq in E. eapply R_trans; [exact H|]. apply Hclear. now apply Hok.
Qed.

Lemma lift_init_all_loop :
  (forall filename arg s, R s (snd (micro_module_init W MM_PTR filename arg s))) ->
  (forall path s, R s (log (EvFtsSetSkip path) s)) ->
  forall arg files s, R s (snd (init_all_loop W arg files s)).
Proof.
  intros Hinit Hskip arg.
  induction files as [|fe rest IH]; intros s; [apply R_refl|].
  rewrite init_all_loop_cons. destruct (is_candidate fe).
  - pose proof (Hinit (fts_path fe) arg s) as H.
    destruct (micro_module_init W MM_PTR (fts_path fe) arg s) as [err s'].
    destruct (negb _); simpl in *; [exact H|].
    eapply R_trans; [exact H | apply IH].
  - destruct (is_skipped_dir fe); [|apply IH].
    eapply R_trans; [apply Hskip | apply IH].
Qed.

Lemma lift_init_all :
  (forall filename arg s, R s (snd (micro_module_init W MM_PTR filename arg s))) ->
  (forall path s, R s (log (EvFtsSetSkip path) s)) ->
  (forall dir res s, R s (log (EvFtsOpen dir res) s)) ->
  (forall rc s, R s (log (EvFtsClose rc) s)) ->
  forall mm dir arg s, R s (snd (micro_module_init_all W mm dir arg s)).
Proof.
  intros Hinit Hskip Hopen Hclose mm dir arg s. destruct mm; [apply R_refl|].
  rewrite init_all_unfold.
  destruct (fts_open_result W (st_trace s) dir) as [entries|]; [|apply Hopen].
  pose proof (lift_init_all_loop Hinit Hskip arg entries
                (log (EvFtsOpen dir (Some entries)) s)) as H.
  destruct (init_all_loop W arg entries _) as [err s1]. simpl in *.
  eapply R_trans; [apply Hopen|]. eapply R_trans; [exact H|]. apply Hclose.
Qed.

End Lift.

(** *** The configuration *)

Lemma same_config_refl c : same_config c c.
Proof.
  repeat split.
Qed.

Lemma same_config_with_modules ms c : same_config c (with_modules ms c).
Proof.
  repeat split.
Qed.

Lemma uses_config_same c c' e :
  same_config c c' -> uses_config c' e -> uses_config c e.
Proof.
  intros (E1 & E2 & E3 & E4). unfold uses_config, lmid_of.
  destruct e; auto; rewrite ?E1, ?E2, ?E3, ?E4; auto.
Qed.

Lemma config_kept_refl s : config_kept s s.
Proof.
  split; [apply same_config_refl|]. exists []. now rewrite app_nil_r.
Qed.

Lemma config_kept_trans s s1 s2 :
  config_kept s s1 -> config_kept s1 s2 -> config_kept s s2.
Proof.
  intros [C1 (t1 & E1 & F1)] [C2 (t2 & E2 & F2)]. split.
  - destruct C1 as (a1 & b1 & c1 & d1). destruct C2 as (a2 & b2 & c2 & d2).
    repeat split; congruence.
  - exists (t1 ++ t2). rewrite E2, E1, app_assoc. split; [reflexivity|].
    apply Forall_app. split; [exact F1|].
    eapply Forall_impl; [|exact F2]. intros e. now apply uses_config_same.
Qed.

Lemma config_kept_log s e : uses_config (st_mm s) e -> config_kept s (log e s).
Proof.
  intros H. split; [apply same_config_refl|]. exists [e]. auto.
Qed.

Lemma config_kept_init filename arg s :
  config_kept s (snd (micro_module_init W MM_PTR filename arg s)).
Proof.
  destruct (init_has_outcome W filename arg s) as (t & Et & O).
  cbv zeta in Et, O. split; [|exists t; split; [exact Et|]];
  remember (fst (micro_module_init W MM_PTR filename arg s)) as r;
  remember (st_mm (snd (micro_module_init W MM_PTR filename arg s))) as c';
  clear Heqr Heqc' Et;
  destruct O; try apply same_config_refl; try apply same_config_with_modules;
    unfold load_events; simpl;
    repeat (apply Forall_cons; [simpl; auto|]); apply Forall_nil.
Qed.

Lemma config_kept_exit module_name arg s :
  config_kept s (snd (micro_module_exit W MM_PTR module_name arg s)).
Proof.
  destruct (exit_has_outcome W module_name arg s) as (t & Et & O).
  cbv zeta in Et, O. split; [|exists t; split; [exact Et|]];
  remember (fst (micro_module_exit W MM_PTR module_name arg s)) as r;
  remember (st_mm (snd (micro_module_exit W MM_PTR module_name arg s))) as c';
  clear Heqr Heqc' Et;
  destruct O; try apply same_config_refl; try apply same_config_with_modules;
    repeat (apply Forall_cons; [simpl; auto|]); apply Forall_nil.
Qed.

(** X9: the three symbol names and the namespace flag are the same after
    each of the four operations, and the platform is only ever called with
    them: every [dlmopen] is made in the namespace the flag selects
    ([LM_ID_NEWLM] when it is set, [LM_ID_BASE] otherwise) and every [dlsym]
    looks up one of the configured symbols. *)
Theorem configuration_respected (s : State) (mm : mm_ref) (arg : voidp) :
  (forall filename,
     config_kept s (snd (micro_module_init W mm filename arg s))) /\
  (forall dir,
     config_kept s (snd (micro_module_init_all W mm dir arg s))) /\
  (forall module_name,
     config_kept s (snd (micro_module_exit W mm module_name arg s))) /\
  config_kept s (snd (micro_module_exit_all W mm arg s)).
Proof.
  split; [|split; [|split]].
  - intros filename. destruct mm; [apply config_kept_refl|].
    apply config_kept_init.
  - intros dir. apply (lift_init_all config_kept config_kept_refl config_kept_trans);
      intros; try apply config_kept_init; apply config_kept_log; exact I.
  - intros module_name. destruct mm; [apply config_kept_refl|].
    apply config_kept_exit.
  - apply (lift_exit_all config_kept config_kept_refl config_kept_trans).
    + intros. apply config_kept_exit.
    + intros s0 _. split; [apply same_config_with_modules|].
      exists [EvStore []]. split; [reflexivity|]. repeat constructor.
Qed.

(** *** Nodes allocated and freed *)

Lemma nodes_balanced_refl s : nodes_balanced s s.
Proof.
  exists []. rewrite app_nil_r. simpl. auto.
Qed.

Lemma nodes_balanced_trans s s1 s2 :
  nodes_balanced s s1 -> nodes_balanced s1 s2 -> nodes_balanced s s2.
Proof.
  intros (t1 & E1 & B1) (t2 & E2 & B2). exists (t1 ++ t2).
  rewrite E2, E1, app_assoc, frees_app, mallocs_app.
  split; [reflexivity | lia].
Qed.

Lemma nodes_balanced_quiet s s' ev :
  st_mm s' = st_mm s -> st_trace s' = st_trace s ++ [ev] ->
  frees [ev] = 0%nat -> mallocs [ev] = 0%nat -> nodes_balanced s s'.
Proof.
  intros Em Et F M. exists [ev]. split; [exact Et|].
  unfold registry. rewrite Em, F, M. reflexivity.
Qed.

Lemma nodes_balanced_init filename arg s :
  nodes_balanced s (snd (micro_module_init W MM_PTR filename arg s)).
Proof.
  destruct (init_has_outcome W filename arg s) as (t & Et & O).
  cbv zeta in Et, O. exists t. split; [exact Et|]. unfold registry.
  remember (fst (micro_module_init W MM_PTR filename arg s)) as r.
  remember (st_mm (snd (micro_module_init W MM_PTR filename arg s))) as c'.
  clear Heqr Heqc' Et.
  destruct O as [ | | | | m old l1 l2 rx rc rn E Hl Hn Hrc
                | m old l1 l2 rx v E Hl Hn | m Hf | m v Hf ];
    simpl; try lia.
  rewrite E, !length_app. simpl. lia.
Qed.

Lemma nodes_balanced_exit module_name arg s :
  nodes_balanced s (snd (micro_module_exit W MM_PTR module_name arg s)).
Proof.
  destruct (exit_has_outcome W module_name arg s) as (t & Et & O).
  cbv zeta in Et, O. exists t. split; [exact Et|]. unfold registry.
  remember (fst (micro_module_exit W MM_PTR module_name arg s)) as r.
  remember (st_mm (snd (micro_module_exit W MM_PTR module_name arg s))) as c'.
  clear Heqr Heqc' Et.
  destruct O as [E | E Hn | n E Hn Hf | e l1 l2 rx rc Hn E Hl Hrc
                | e l1 l2 rx Hn E Hl];
    simpl; try lia.
  rewrite E, !length_app. simpl. lia.
Qed.

(** X14: no node of the linked list is lost.  Over each of the four
    operations the length of the list grows by the number of nodes [malloc]
    gave and shrinks by the number of nodes freed: a node is allocated only
    to be linked and unlinked only to be freed, and the store of NULL that
    ends a bulk unload drops nothing. *)
Theorem list_nodes_are_accounted_for (s : State) (mm : mm_ref) (arg : voidp) :
  (forall filename,
     nodes_balanced s (snd (micro_module_init W mm filename arg s))) /\
  (forall dir,
     nodes_balanced s (snd (micro_module_init_all W mm dir arg s))) /\
  (forall module_name,
     nodes_balanced s (snd (micro_module_exit W mm module_name arg s))) /\
  nodes_balanced s (snd (micro_module_exit_all W mm arg s)).
Proof.
  repeat apply conj.
  - intros filename. destruct mm; [apply nodes_balanced_refl|].
    apply nodes_balanced_init.
  - intros dir.
    apply (lift_init_all nodes_balanced nodes_balanced_refl nodes_balanced_trans);
      intros; try apply nodes_balanced_init;
      eapply nodes_balanced_quiet; reflexivity.
  - intros module_name. destruct mm; [apply nodes_balanced_refl|].
    apply nodes_balanced_exit.
  - apply (lift_exit_all nodes_balanced nodes_balanced_refl nodes_balanced_trans).
    + intros. apply nodes_balanced_exit.
    + intros s0 E. exists [EvStore []]. split; [reflexivity|].
      unfold registry in *. simpl. rewrite E. reflexivity.
Qed.

(** *** Names come with loads and go with unloads *)

(** X15: a load never unregisters a name and an unload never registers a
    node: after [micro_module_init] or [micro_module_init_all] every name
    that was registered still is, and after [micro_module_exit] or
    [micro_module_exit_all] every node of the list was in it before. *)
Theorem loads_keep_names_unloads_add_none
        (s : State) (mm : mm_ref) (arg : voidp) :
  (forall filename,
     incl (names (registry s))
          (names (registry (snd (micro_module_init W mm filename arg s))))) /\
  (forall dir,
     incl (names (registry s))
          (names (registry (snd (micro_module_init_all W mm dir arg s))))) /\
  (forall module_name,
     incl (registry (snd (micro_module_exit W mm module_name arg s)))
          (registry s)) /\
  incl (registry (snd (micro_module_exit_all W mm arg s))) (registry s).
Proof.
  assert (Hinit : forall filename a s0,
             incl (names (registry s0))
                  (names (registry (snd (micro_module_init W MM_PTR filename a s0))))).
  { intros filename a s0.
    destruct (init_replaced_or_pushed W MM_PTR filename a s0)
      as [-> | (n & _ & ->)]; [apply incl_refl | apply incl_tl, incl_refl]. }
  assert (Hexit : forall n a s0,
             incl (registry (snd (micro_module_exit W MM_PTR n a s0)))
                  (registry s0)).
  { intros n a s0.
    destruct (exit_removed_at_most_one W MM_PTR n a s0)
      as [-> | (l1 & e & l2 & -> & ->)]; [apply incl_refl|].
    intros x Hx. apply in_app_or in Hx. apply in_or_app.
    destruct Hx; [now left | right; now right]. }
  repeat apply conj.
  - intros filename. destruct mm; [apply incl_refl | apply Hinit].
  - intros dir.
    apply (lift_init_all
             (fun a b => incl (names (registry a)) (names (registry b))));
      intros; try apply incl_refl; try apply Hinit.
    eapply incl_tran; eassumption.
  - intros module_name. destruct mm; [apply incl_refl | apply Hexit].
  - apply (lift_exit_all (fun a b => incl (registry b) (registry a)));
      intros; try apply incl_refl; try apply Hexit.
    + eapply incl_tran; eassumption.
    + intros x [].
Qed.

(** *** Load and unload, one after the other *)

(** X10: loading a module under a new name and unloading that name again
    gives back the loader's structure as it was before the load: the list
    has the same nodes in the same order, whatever the init function
    returned. *)
Theorem load_then_unload_restores
        (s s1 : State) (filename : string) (arg arg' : voidp)
        (m : MicroModuleEntry) :
  init_load W filename s = (inr m, s1) ->
  ~ In (name m) (names (registry s)) ->
  malloc_result W (st_trace s1) = true ->
  let s' := snd (micro_module_init W MM_PTR filename arg s) in
  fst (teardown W m arg' s') = 0 ->
  let r := micro_module_exit W MM_PTR (Some (name m)) arg' s' in
  fst r = MICRO_MODULE_OK /\ st_mm (snd r) = st_mm s.
Proof.
  intros HL Hn Hm s' Hrc.
  destruct (init_pushed s s1 filename arg m HL Hn Hm) as [Emm _].
  fold s' in Emm. cbv zeta.
  assert (E : registry s' = m :: registry s)
    by (unfold registry at 1; now rewrite Emm).
  rewrite (exit_head W m (registry s) arg' s' E).
  destruct (teardown W m arg' s') as [rc s2] eqn:ET.
  destruct (teardown_shape _ _ _ _ _ _ ET) as (Emm2 & _).
  simpl in Hrc. subst rc. simpl. split; [reflexivity|].
  rewrite Emm2, Emm. unfold registry. now destruct (st_mm s).
Qed.

(** X17: with unique names, a name that has just been unloaded is gone: a
    second unload of it returns MICRO_MODULE_ERROR_MODULE_NOT_REGISTERED and
    calls nothing. *)
Theorem unload_twice_not_registered
        (s : State) (n : string) (arg arg' : voidp) (e : MicroModuleEntry) :
  unique_names s ->
  find_module n (registry s) = Some e ->
  fst (teardown W e arg s) = 0 ->
  let s' := snd (micro_module_exit W MM_PTR (Some n) arg s) in
  micro_module_exit W MM_PTR (Some n) arg' s'
  = (MICRO_MODULE_ERROR_MODULE_NOT_REGISTERED, s').
Proof.
  intros U Hf Hrc s'.
  destruct (exit_success s n arg e Hf Hrc)
    as (_ & l1 & l2 & rx & _ & _ & Emm & _ & Hnone).
  fold s' in Emm. apply exit_unknown_name_lemma.
  apply find_module_none_iff. unfold registry. rewrite Emm. simpl. auto.
Qed.

(** *** The directory walk *)

Lemma init_all_loop_no_candidates (arg : voidp) : forall files s,
  candidates files = [] ->
  init_all_loop W arg files s
  = (MICRO_MODULE_OK,
     mkState (st_mm s)
             (st_trace s
              ++ map EvFtsSetSkip (map fts_path (filter is_skipped_dir files)))).
Proof.
  induction files as [|fe rest IH]; intros s Hc.
  - simpl. rewrite app_nil_r. now destruct s.
  - rewrite init_all_loop_cons. unfold candidates in Hc. simpl in Hc.
    destruct (is_candidate fe); [discriminate|]. simpl.
    destruct (is_skipped_dir fe); rewrite (IH _ Hc); simpl; [|reflexivity].
    now rewrite <- app_assoc.
Qed.

(** X13: a walk without candidate files (no regular file, symbolic link
    or [FTS_DEFAULT] entry at level 1: an empty directory, or one that
    holds only sub-directories) loads nothing.  The walker is opened, [fts_set(FTS_SKIP)] is called on each
    directory below the top one, the walker is closed, and the result is
    MICRO_MODULE_OK, or MICRO_MODULE_ERROR_CLOSE_MODULES_DIR when [fts_close]
    returns a negative value; the loader's structure is unchanged. *)
Theorem init_all_without_candidates
        (s : State) (dir : string) (arg : voidp) (entries : list FTSENT) :
  fts_open_result W (st_trace s) dir = Some entries ->
  candidates entries = [] ->
  let r := micro_module_init_all W MM_PTR dir arg s in
  st_mm (snd r) = st_mm s /\
  exists rc,
    st_trace (snd r)
    = st_trace s
      ++ EvFtsOpen dir (Some entries)
      :: map EvFtsSetSkip (map fts_path (filter is_skipped_dir entries))
      ++ [EvFtsClose rc] /\
    fst r = (if rc <? 0 then MICRO_MODULE_ERROR_CLOSE_MODULES_DIR
             else MICRO_MODULE_OK).
Proof.
  intros Ho Hc. cbv zeta. rewrite init_all_unfold, Ho.
  rewrite (init_all_loop_no_candidates arg entries _ Hc). simpl.
  split; [reflexivity|]. eexists. split.
  - repeat rewrite <- app_assoc. simpl. reflexivity.
  - rewrite andb_true_r. repeat rewrite <- app_assoc. reflexivity.
Qed.

Lemma init_no_walker filename arg s :
  exists t,
    st_trace (snd (micro_module_init W MM_PTR filename arg s)) = st_trace s ++ t /\
    forallb (fun e => negb (is_walker e)) t = true.
Proof.
  destruct (init_has_outcome W filename arg s) as (t & Et & O).
  cbv zeta in Et, O. exists t. split; [exact Et|].
  remember (fst (micro_module_init W MM_PTR filename arg s)) as r.
  remember (st_mm (snd (micro_module_init W MM_PTR filename arg s))) as c'.
  clear Heqr Heqc' Et. destruct O; reflexivity.
Qed.

Lemma init_all_loop_no_walker arg files s :
  exists t,
    st_trace (snd (init_all_loop W arg files s)) = st_trace s ++ t /\
    forallb (fun e => negb (is_walker e)) t = true.
Proof.
  apply (lift_init_all_loop
           (fun a b => exists t, st_trace b = st_trace a ++ t /\
                                 forallb (fun e => negb (is_walker e)) t = true)).
  - intros s0. exists []. now rewrite app_nil_r.
  - intros s0 s1 s2 (t1 & E1 & F1) (t2 & E2 & F2). exists (t1 ++ t2).
    rewrite E2, E1, app_assoc, forallb_app, F1, F2. auto.
  - intros. apply init_no_walker.
  - intros path s0. exists [EvFtsSetSkip path]. auto.
Qed.

(** X12: the directory walker is closed exactly when it was opened.  When
    [fts_open] returns NULL the result is MICRO_MODULE_ERROR_OPEN_MODULES_DIR
    and nothing else is done.  Otherwise [fts_close] is the last call,
    made once, also when a load failed; a negative [fts_close] never ends
    in MICRO_MODULE_OK, and MICRO_MODULE_OK means that every candidate of
    the walk was attempted. *)
Theorem init_all_closes_the_walker (s : State) (dir : string) (arg : voidp) :
  let r := micro_module_init_all W MM_PTR dir arg s in
  match fts_open_result W (st_trace s) dir with
  | None =>
    r = (MICRO_MODULE_ERROR_OPEN_MODULES_DIR, log (EvFtsOpen dir None) s)
  | Some entries =>
    exists mid rc,
      st_trace (snd r)
      = st_trace s ++ EvFtsOpen dir (Some entries) :: mid ++ [EvFtsClose rc] /\
      forallb (fun e => negb (is_walker e)) mid = true /\
      (rc < 0 -> fst r <> MICRO_MODULE_OK) /\
      (fst r = MICRO_MODULE_OK -> attempts mid = candidates entries)
  end.
Proof.
  cbv zeta. rewrite init_all_unfold.
  destruct (fts_open_result W (st_trace s) dir) as [entries|]; [|reflexivity].
  set (s0 := log (EvFtsOpen dir (Some entries)) s).
  destruct (init_all_loop_no_walker arg entries s0) as (mid & Em & Fm).
  destruct (init_all_loop_attempted W arg entries s0)
    as (done & rest & Ec & (t' & Et' & At) & Hr).
  destruct (init_all_loop W arg entries s0) as [err s1]. simpl in *.
  rewrite Em in Et'. apply app_inv_head in Et'. subst t'.
  exists mid, (fts_close_result W (st_trace s ++ [EvFtsOpen dir (Some entries)] ++ mid)).
  rewrite Em. repeat rewrite <- app_assoc. simpl.
  split; [reflexivity|]. split; [exact Fm|]. split.
  - intros Hrc. apply Z.ltb_lt in Hrc. rewrite Hrc. simpl.
    destruct (err =? MICRO_MODULE_OK) eqn:Ee; [discriminate|].
    now apply Z.eqb_neq.
  - intros H.
    assert (He : err = MICRO_MODULE_OK).
    { destruct (_ <? 0); simpl in H; [|exact H].
      destruct (err =? MICRO_MODULE_OK) eqn:Ee; [discriminate | exact H]. }
    rewrite (Hr He), app_nil_r in Ec. congruence.
Qed.

(** *** The handle a load opens *)

(** X18: the handle [dlmopen] returns to a load ends in one of three ways:
    it is the handle of the module registered under the resolved name, or
    [dlclose] was called on it, or [malloc] returned NULL.  The failed
    allocation is the only way in which [micro_module_init] returns with
    the handle neither registered nor given back. *)
Theorem init_handle_registered_or_closed
        (s : State) (filename : string) (arg : voidp) (t : trace)
        (lmid : Lmid) (h : handle) :
  let r := micro_module_init W MM_PTR filename arg s in
  st_trace (snd r) = st_trace s ++ t ->
  In (EvDlmopen lmid filename (Some h)) t ->
  (exists m, dlhandler m = h /\
             find_module (name m) (registry (snd r)) = Some m) \/
  In h (map fst (closes t)) \/
  In (EvMalloc false) t.
Proof.
  cbv zeta. intros Et Hin.
  destruct (init_has_outcome W filename arg s) as (t' & Et' & O).
  cbv zeta in Et', O. rewrite Et in Et'. apply app_inv_head in Et'. subst t'.
  unfold registry.
  remember (fst (micro_module_init W MM_PTR filename arg s)) as r.
  remember (st_mm (snd (micro_module_init W MM_PTR filename arg s))) as c'.
  clear Heqr Heqc' Et.
  destruct O as [ | h0 rc | h0 fi rc | h0 fi fe rc
                | m old l1 l2 rx rc rn E Hl Hn Hrc
                | m old l1 l2 rx v E Hl Hn | m Hf | m v Hf ];
    unfold load_events in Hin; simpl in Hin;
    repeat match goal with
           | H : _ \/ _ |- _ => destruct H as [H | H]
           end;
    try discriminate Hin; try contradiction;
    inversion Hin; subst; simpl; auto 10.
  - left. exists m. split; [reflexivity|]. now apply find_module_app_first.
  - left. exists m. split; [reflexivity|].
    unfold find_module. simpl. now rewrite String.eqb_refl.
Qed.

(** *** The example loader *)

Lemma coop_teardown e arg s :
  (forall tr h, dlclose_result W tr h = 0) -> fst (teardown W e arg s) = 0.
Proof.
  intros H. unfold teardown. munfold. apply H.
Qed.

Lemma default_symbols_kept s s' :
  config_kept s s' -> default_symbols (st_mm s) -> default_symbols (st_mm s').
Proof.
  intros [(E1 & E2 & E3 & _) _] (D1 & D2 & D3). repeat split; congruence.
Qed.

Lemma init_keeps_names filename arg s :
  incl (names (registry s))
       (names (registry (snd (micro_module_init W MM_PTR filename arg s)))).
Proof.
  destruct (init_replaced_or_pushed W MM_PTR filename arg s)
    as [-> | (n & _ & ->)]; [apply incl_refl | apply incl_tl, incl_refl].
Qed.

Lemma coop_init_load s filename :
  default_symbols (st_mm s) -> exports_symbols W filename ->
  exists m s1,
    init_load W filename s = (inr m, s1) /\
    (forall n, names_itself W filename n -> name m = n).
Proof.
  intros (Dn & Di & De) Hx. rewrite init_load_unfold. cbv zeta.
  destruct (Hx (st_trace s) (lmid_of (st_mm s))) as (h & Ho & Hs).
  rewrite Ho, Di, De, Dn.
  destruct (dlsym_fn_result W _ h "micro_module_init") as [fi|] eqn:E1;
    [|exfalso; exact (proj1 (Hs _) E1)].
  destruct (dlsym_fn_result W _ h "micro_module_exit") as [fe|] eqn:E2;
    [|exfalso; exact (proj1 (proj2 (Hs _)) E2)].
  destruct (dlsym_name_result W _ h "micro_module_name") as [nm|] eqn:E3;
    [|exfalso; exact (proj2 (proj2 (Hs _)) E3)].
  eexists _, _. split; [reflexivity|]. intros n Hn. simpl.
  rewrite (Hn _ _ _ _ Ho) in E3. now inversion E3.
Qed.

Lemma coop_init s filename arg :
  never_fails W -> default_symbols (st_mm s) -> exports_symbols W filename ->
  let r := micro_module_init W MM_PTR filename arg s in
  fst r = MICRO_MODULE_OK /\
  (forall n, names_itself W filename n -> In n (names (registry (snd r)))).
Proof.
  intros (Hinit & Hclose & Hmalloc & _) D Hx. cbv zeta.
  destruct (coop_init_load s filename D Hx) as (m & s1 & HL & Hname).
  rewrite init_unfold, HL.
  destruct (find_module (name m) (registry s1)) as [old|] eqn:Hf.
  - destruct (init_register_found W s1 m old arg Hf) as (l1 & l2 & E & Hl & Eq).
    rewrite Eq. clear Eq.
    pose proof (coop_teardown old arg s1 Hclose) as Hrc.
    destruct (teardown W old arg s1) as [rc s2]. simpl in Hrc. subst rc.
    simpl. rewrite init_call_spec. cbv zeta. simpl.
    split; [apply Hinit|]. intros n Hn. rewrite <- (Hname n Hn).
    unfold registry, names. simpl. rewrite map_app. apply in_or_app.
    right. now left.
  - rewrite (init_register_absent W s1 m arg Hf).
    unfold MICRO_MODULE_MALLOC. cbv zeta. rewrite Hmalloc. simpl.
    rewrite init_call_spec. cbv zeta. simpl.
    split; [apply Hinit|]. intros n Hn. rewrite <- (Hname n Hn).
    unfold registry, names. simpl. now left.
Qed.

Lemma coop_init_all_loop arg :
  never_fails W ->
  forall files s,
    default_symbols (st_mm s) ->
    (forall p, In p (candidates files) -> exports_symbols W p) ->
    let r := init_all_loop W arg files s in
    fst r = MICRO_MODULE_OK /\ default_symbols (st_mm (snd r)) /\
    incl (names (registry s)) (names (registry (snd r))) /\
    (forall p n, In p (candidates files) -> names_itself W p n ->
                 In n (names (registry (snd r)))).
Proof.
  intros NF. induction files as [|fe rest IH]; intros s D Hx; cbv zeta.
  - simpl. split; [reflexivity|]. split; [exact D|].
    split; [apply incl_refl|]. intros p n [].
  - rewrite init_all_loop_cons. unfold candidates in *. simpl in Hx.
    simpl filter. destruct (is_candidate fe) eqn:C.
    + simpl in Hx. simpl map.
      destruct (coop_init s (fts_path fe) arg NF D (Hx _ (or_introl eq_refl)))
        as [Hok Hreg].
      pose proof (config_kept_init (fts_path fe) arg s) as K.
      pose proof (init_keeps_names (fts_path fe) arg s) as Hi.
      destruct (micro_module_init W MM_PTR (fts_path fe) arg s) as [err s'].
      simpl in Hok, Hreg, K, Hi. subst err.
      change (negb (MICRO_MODULE_OK =? MICRO_MODULE_OK)) with false. cbv iota.
      destruct (IH s' (default_symbols_kept _ _ K D)
                   (fun p Hp => Hx p (or_intror Hp)))
        as (R & D' & I' & N').
      split; [exact R|]. split; [exact D'|]. split.
      * eapply incl_tran; eassumption.
      * intros p n [<- | Hp] Hn; [apply I', Hreg, Hn | exact (N' p n Hp Hn)].
    + assert (IH' : forall s0, default_symbols (st_mm s0) ->
                 let r := init_all_loop W arg rest s0 in
                 fst r = MICRO_MODULE_OK /\ default_symbols (st_mm (snd r)) /\
                 incl (names (registry s0)) (names (registry (snd r))) /\
                 (forall p n, In p (map fts_path (filter is_candidate rest)) ->
                              names_itself W p n ->
                              In n (names (registry (snd r)))))
        by (intros s0 D0; exact (IH s0 D0 Hx)).
      destruct (is_skipped_dir fe); [|exact (IH' s D)].
      exact (IH' (log (EvFtsSetSkip (fts_path fe)) s) D).
Qed.

Lemma coop_exit_all_loop arg :
  (forall tr h, dlclose_result W tr h = 0) ->
  forall it s, registry s = it ->
               fst (exit_all_loop W arg it s) = MICRO_MODULE_OK.
Proof.
  intros Hclose. induction it as [|e next IH]; intros s E; [reflexivity|].
  rewrite exit_all_loop_cons, (exit_head W e next arg s E).
  pose proof (coop_teardown e arg s Hclose) as Hrc.
  destruct (teardown W e arg s) as [rc s1]. simpl in Hrc. subst rc.
  simpl. apply IH. reflexivity.
Qed.

(** X16: the example loader passes its four assertions and returns 0,
    leaving nothing loaded, on every platform on which nothing fails
    (entry points return 0, handles close, [malloc] and the walker work),
    every candidate file of the directory and [example_module1.so] open
    and have the three symbols, and one of the files of the directory
    names itself [example_module2]. *)
Theorem main_returns_zero (entries : list FTSENT) (p2 : string) :
  never_fails W ->
  fts_open_result W [] "./example_modules/compiled" = Some entries ->
  (forall p, In p (candidates entries) -> exports_symbols W p) ->
  exports_symbols W "./example_modules/compiled/example_module1.so" ->
  In p2 (candidates entries) ->
  names_itself W p2 example_module2_name ->
  fst (main W) = MainReturned 0 /\ registry (snd (main W)) = [].
Proof.
  intros NF Ho Hx H1 Hp2 Hn2. unfold main.
  set (mm := micro_module_setup "micro_module_name" "micro_module_init"
                                "micro_module_exit" true).
  (* the bulk load *)
  assert (A1 : let r := micro_module_init_all W MM_PTR
                          "./example_modules/compiled" 0 (mkState mm []) in
               fst r = MICRO_MODULE_OK /\ default_symbols (st_mm (snd r)) /\
               In example_module2_name (names (registry (snd r)))).
  { cbv zeta. rewrite init_all_unfold. simpl st_trace. rewrite Ho.
    destruct (coop_init_all_loop 0 NF entries
                (log (EvFtsOpen "./example_modules/compiled" (Some entries))
                     (mkState mm []))
                (conj eq_refl (conj eq_refl eq_refl)) Hx)
      as (R & D & _ & N).
    destruct (init_all_loop W 0 entries _) as [err s1]. simpl in *. subst err.
    destruct NF as (_ & _ & _ & Hfc).
    rewrite (proj2 (Z.ltb_ge _ _) (Hfc _)). simpl.
    split; [reflexivity|]. split; [exact D|]. exact (N p2 _ Hp2 Hn2). }
  destruct (micro_module_init_all W MM_PTR "./example_modules/compiled" 0
                                  (mkState mm [])) as [e1 s1].
  simpl in A1. destruct A1 as (-> & D1 & N1).
  change (negb (MICRO_MODULE_OK =? MICRO_MODULE_OK)) with false. cbv iota.
  (* the reload *)
  destruct (coop_init s1 "./example_modules/compiled/example_module1.so" 0
                      NF D1 H1) as [A2 _].
  pose proof (init_keeps_names "./example_modules/compiled/example_module1.so"
                               0 s1) as I2.
  destruct (micro_module_init W MM_PTR
              "./example_modules/compiled/example_module1.so" 0 s1) as [e2 s2].
  simpl in A2, I2. subst e2.
  change (negb (MICRO_MODULE_OK =? MICRO_MODULE_OK)) with false. cbv iota.
  (* the unload of example_module2 *)
  assert (N2 : In example_module2_name (names (registry s2))) by now apply I2.
  destruct (find_module example_module2_name (registry s2)) as [e|] eqn:Hf;
    [|now apply find_module_none_iff in Hf].
  destruct NF as (_ & Hclose & _ & _).
  destruct (exit_success s2 example_module2_name 0 e Hf
                         (coop_teardown e 0 s2 Hclose)) as [A3 _].
  change (Some "example_module2"%string) with (Some example_module2_name).
  destruct (micro_module_exit W MM_PTR (Some example_module2_name) 0 s2)
    as [e3 s3].
  simpl in A3. subst e3.
  change (negb (MICRO_MODULE_OK =? MICRO_MODULE_OK)) with false. cbv iota.
  (* the bulk unload *)
  rewrite exit_all_unfold.
  pose proof (coop_exit_all_loop 0 Hclose (registry s3) s3 eq_refl) as A4.
  destruct (exit_all_loop W 0 (registry s3) s3) as [e4 s4].
  simpl in A4. subst e4. simpl. auto.
Qed.

(** *** Stable symbols

    On a platform where what [dlsym] finds does not change, the symbols of
    the registered handles are stable in every state the loader gets
    into: a node is registered with what its handle resolved to. *)

Lemma symbols_stable_same s s' :
  symbols_stable W s -> st_mm s' = st_mm s -> symbols_stable W s'.
Proof.
  intros S E e t He. unfold registry in He. rewrite E in *. exact (S e t He).
Qed.

Lemma symbols_stable_sub s s' ms :
  symbols_stable W s ->
  st_mm s' = with_modules ms (st_mm s) ->
  (forall e, In e ms ->
     In e (registry s) \/
     forall t,
       dlsym_fn_result W t (dlhandler e) (init_fn_symbol (st_mm s)) <> None /\
       dlsym_fn_result W t (dlhandler e) (exit_fn_symbol (st_mm s)) <> None /\
       dlsym_name_result W t (dlhandler e) (name_symbol (st_mm s))
       = Some (name e)) ->
  symbols_stable W s'.
Proof.
  intros S E H e t He. unfold registry in He. rewrite E in *. simpl in *.
  destruct (H e He) as [Hin | Hr]; [exact (S e t Hin) | exact (Hr t)].
Qed.

Lemma symbols_stable_exit mm module_name arg s :
  symbols_stable W s ->
  symbols_stable W (snd (micro_module_exit W mm module_name arg s)).
Proof.
  intros S. destruct mm; [exact S|].
  destruct (exit_cases W module_name arg s)
    as [(r & _ & ->)
       | (e & l1 & l2 & rc & s1 & _ & E & _ & ET & [[_ ->] | [_ ->]])];
    simpl; [exact S | |];
    destruct (teardown_shape W _ _ _ _ _ ET) as (Emm & _).
  - now apply (symbols_stable_same s).
  - apply (symbols_stable_sub s _ (l1 ++ l2)); [exact S | simpl; now rewrite Emm|].
    intros x Hx. left. rewrite E. apply in_app_or in Hx. apply in_or_app.
    destruct Hx; [now left | right; now right].
Qed.

Lemma symbols_stable_init mm filename arg s :
  symbols_fixed W -> symbols_stable W s ->
  symbols_stable W (snd (micro_module_init W mm filename arg s)).
Proof.
  intros F S. destruct mm; [exact S|].
  assert (New : forall m s1,
             init_load W filename s = (inr m, s1) ->
             forall t,
               dlsym_fn_result W t (dlhandler m) (init_fn_symbol (st_mm s))
               <> None /\
               dlsym_fn_result W t (dlhandler m) (exit_fn_symbol (st_mm s))
               <> None /\
               dlsym_name_result W t (dlhandler m) (name_symbol (st_mm s))
               = Some (name m)).
  { intros m s1 HL t.
    destruct (init_load_ok_symbols W _ _ _ _ HL) as (ti & te & tn & Hi & He & Hn).
    destruct (F t ti (dlhandler m) (init_fn_symbol (st_mm s))) as [-> _].
    destruct (F t te (dlhandler m) (exit_fn_symbol (st_mm s))) as [-> _].
    destruct (F t tn (dlhandler m) (name_symbol (st_mm s))) as [_ ->].
    rewrite Hi, He, Hn. repeat split; discriminate. }
  destruct (init_cases W filename arg s)
    as [(err & s1 & HL & ->)
       | (m & s1 & HL &
          [(old & l1 & l2 & rc & s2 & E & Hn & Hl & ET & [[_ ->] | [_ ->]])
          | (Hf & [[_ ->] | [_ ->]])])].
  - destruct (init_load_fail W _ _ _ _ HL) as [Emm _].
    now apply (symbols_stable_same s).
  - destruct (init_load_ok W _ _ _ _ HL) as [Emm _].
    destruct (teardown_shape W _ _ _ _ _ ET) as (Emm2 & _).
    apply (symbols_stable_same s); [exact S|]. simpl. now rewrite Emm2.
  - destruct (init_load_ok W _ _ _ _ HL) as [Emm _].
    destruct (teardown_shape W _ _ _ _ _ ET) as (Emm2 & _).
    rewrite init_call_spec. cbv zeta.
    apply (symbols_stable_sub s _ (l1 ++ m :: l2));
      [exact S | simpl; now rewrite Emm2, Emm|].
    assert (Reg : registry s = l1 ++ old :: l2).
    { unfold registry in *. now rewrite <- Emm. }
    intros x Hx. apply in_app_or in Hx. destruct Hx as [Hx | [<- | Hx]].
    + left. rewrite Reg. apply in_or_app. now left.
    + right. exact (New _ _ HL).
    + left. rewrite Reg. apply in_or_app. right. now right.
  - destruct (init_load_ok W _ _ _ _ HL) as [Emm _].
    now apply (symbols_stable_same s).
  - destruct (init_load_ok W _ _ _ _ HL) as [Emm _].
    rewrite init_call_spec. cbv zeta.
    apply (symbols_stable_sub s _ (m :: registry s1));
      [exact S | simpl; now rewrite Emm|].
    intros x [<- | Hx].
    + right. exact (New _ _ HL).
    + left. unfold registry in *. now rewrite <- Emm.
Qed.

Lemma symbols_stable_reachable s :
  symbols_fixed W -> reachable W s -> symbols_stable W s.
Proof.
  intros F H.
  induction H as [a b c d | s mm filename arg _ IH | s mm dir arg _ IH
                 | s mm module_name arg _ IH | s mm arg _ IH].
  - intros e t [].
  - now apply symbols_stable_init.
  - revert IH.
    apply (lift_init_all
             (fun s s' => symbols_stable W s -> symbols_stable W s')); auto.
    intros filename0 arg0 s0. now apply symbols_stable_init.
  - now apply symbols_stable_exit.
  - revert IH.
    apply (lift_exit_all
             (fun s s' => symbols_stable W s -> symbols_stable W s')); auto.
    + intros n arg0 s0. now apply symbols_stable_exit.
    + intros s0 _ _ e t He. simpl in He. destruct He.
Qed.

End Further.

(** ** The further properties at work on concrete platforms *)

Lemma null_mm_is_rejected_witness :
  fst (micro_module_exit demo_platform MM_NULL (Some "alpha"%string) 0 demo_loaded)
  = MICRO_MODULE_ERROR_IS_NULL /\
  (fst (micro_module_exit_all demo_platform MM_PTR 0 demo_loaded)
   = MICRO_MODULE_ERROR_IS_NULL -> MM_PTR = MM_NULL).
Proof.
  destruct (null_mm_is_rejected demo_platform demo_loaded 0)
    as (_ & _ & _ & _ & He & Ha).
  split.
  - apply (proj2 (He MM_NULL (Some "alpha"%string))). reflexivity.
  - exact (proj1 (Ha MM_PTR)).
Defined.

Lemma exit_success_unlinks_first_match_witness :
  find_module "alpha" (registry demo_loaded) = Some demo_old_alpha /\
  fst (teardown demo_platform demo_old_alpha 0 demo_loaded) = 0 /\
  fst (micro_module_exit demo_platform MM_PTR (Some "alpha"%string) 0 demo_loaded)
  = MICRO_MODULE_OK.
Proof.
  split; [reflexivity|]. split; [reflexivity|].
  exact (proj1 (exit_success_unlinks_first_match
                  demo_platform demo_loaded "alpha" 0 demo_old_alpha
                  eq_refl eq_refl)).
Defined.

(** [beta] is unloaded from between [gamma] and [alpha], which stay
    registered as they were. *)
Lemma exit_leaves_other_modules_witness :
  Some "beta"%string <> Some "gamma"%string /\
  Some "beta"%string <> Some "alpha"%string /\
  registry demo_three = [demo_gamma; demo_beta; demo_old_alpha] /\
  fst (micro_module_exit demo_platform MM_PTR (Some "beta"%string) 0 demo_three)
  = MICRO_MODULE_OK /\
  find_module "gamma"
    (registry (snd (micro_module_exit demo_platform MM_PTR
                                      (Some "beta"%string) 0 demo_three)))
  = Some demo_gamma /\
  find_module "alpha"
    (registry (snd (micro_module_exit demo_platform MM_PTR
                                      (Some "beta"%string) 0 demo_three)))
  = Some demo_old_alpha /\
  exists t,
    st_trace (snd (micro_module_exit demo_platform MM_PTR
                                     (Some "beta"%string) 0 demo_three)) = t /\
    exit_calls t = [exit_fn demo_beta] /\
    closes t = [(dlhandler demo_beta, 0)].
Proof.
  assert (Hg : Some "beta"%string <> Some "gamma"%string) by discriminate.
  assert (Ha : Some "beta"%string <> Some "alpha"%string) by discriminate.
  destruct (exit_leaves_other_modules demo_platform demo_three MM_PTR
                                      (Some "beta"%string) 0)
    as (Hfind & t & Et & _ & _ & _ & Hcalls).
  split; [exact Hg|]. split; [exact Ha|].
  split; [reflexivity|]. split; [reflexivity|].
  split; [rewrite (Hfind "gamma"%string Hg); reflexivity|].
  split; [rewrite (Hfind "alpha"%string Ha); reflexivity|].
  change (st_trace demo_three ++ t) with t in Et. subst t.
  eexists. split; [reflexivity|].
  destruct Hcalls as [[Hx _] | (n & e & rc & Hn & Hf & Hx & Hc)].
  - vm_compute in Hx. discriminate Hx.
  - inversion Hn; subst n. vm_compute in Hf. inversion Hf; subst e.
    split; [exact Hx|]. reflexivity.
Defined.

Lemma init_new_name_pushed_at_head_witness :
  ~ In "gamma"%string (names (registry demo_loaded)) /\
  registry (snd (micro_module_init demo_platform MM_PTR "plugins/c.so" 0
                                   demo_loaded))
  = [mkEntry "gamma" 31%positive 32%positive 3%positive; demo_old_alpha].
Proof.
  assert (H : ~ In "gamma"%string (names (registry demo_loaded))).
  { simpl. intros [H | []]. discriminate H. }
  split; [exact H|].
  destruct (init_new_name_pushed_at_head
              demo_platform demo_loaded
              (snd (init_load demo_platform "plugins/c.so" demo_loaded))
              "plugins/c.so" 0
              (mkEntry "gamma" 31%positive 32%positive 3%positive)
              eq_refl H eq_refl) as [Emm _].
  unfold registry. rewrite Emm. reflexivity.
Defined.

Lemma init_load_failure_releases_handle_witness :
  existsb is_null_answer
    (st_trace (snd (micro_module_init demo_platform MM_PTR "plugins/b.so" 0
                                      demo_loaded))) = true /\
  st_mm (snd (micro_module_init demo_platform MM_PTR "plugins/b.so" 0
                                demo_loaded)) = st_mm demo_loaded /\
  exit_calls
    (st_trace (snd (micro_module_init demo_platform MM_PTR "plugins/b.so" 0
                                      demo_loaded))) = [].
Proof.
  split; [reflexivity|].
  destruct (init_load_failure_releases_handle
              demo_platform demo_loaded "plugins/b.so" 0
              (st_trace (snd (micro_module_init demo_platform MM_PTR
                                                "plugins/b.so" 0 demo_loaded)))
              eq_refl eq_refl) as (Emm & _ & Hx & _).
  split; [exact Emm | exact Hx].
Defined.

Lemma init_alloc_failure_leaves_handle_open_witness :
  malloc_result demo_no_memory
    (st_trace (snd (init_load demo_no_memory "plugins/c.so" demo_loaded)))
  = false /\
  fst (micro_module_init demo_no_memory MM_PTR "plugins/c.so" 0 demo_loaded)
  = MICRO_MODULE_ERROR_ALLOCATING_MEMORY /\
  closes (st_trace (snd (micro_module_init demo_no_memory MM_PTR "plugins/c.so"
                                           0 demo_loaded))) = [].
Proof.
  split; [reflexivity|].
  assert (H : ~ In "gamma"%string (names (registry demo_loaded))).
  { simpl. intros [H | []]. discriminate H. }
  destruct (init_alloc_failure_leaves_handle_open
              demo_no_memory demo_loaded
              (snd (init_load demo_no_memory "plugins/c.so" demo_loaded))
              "plugins/c.so" 0
              (mkEntry "gamma" 31%positive 32%positive 3%positive)
              eq_refl H eq_refl) as (R & _ & Et & Hc).
  split; [exact R|]. rewrite Et. exact Hc.
Defined.

Lemma init_result_is_status_or_error_witness :
  fst (micro_module_init demo_platform MM_PTR "plugins/a.so" 0 demo_empty)
  = MICRO_MODULE_OK /\
  exists m,
    init_calls (st_trace (snd (micro_module_init demo_platform MM_PTR
                                                 "plugins/a.so" 0 demo_empty)))
    = [(init_fn m, 0)] /\
    find_module (name m)
      (registry (snd (micro_module_init demo_platform MM_PTR "plugins/a.so" 0
                                        demo_empty)))
    = Some m.
Proof.
  split; [reflexivity|].
  exact (proj2 (init_result_is_status_or_error
                  demo_platform demo_empty "plugins/a.so" 0
                  (st_trace (snd (micro_module_init demo_platform MM_PTR
                                                    "plugins/a.so" 0 demo_empty)))
                  eq_refl) eq_refl).
Defined.

Lemma init_leaves_other_modules_witness :
  find_module "alpha"
    (registry (snd (micro_module_init demo_platform MM_PTR "plugins/c.so" 0
                                      demo_loaded)))
  = find_module "alpha" (registry demo_loaded).
Proof.
  destruct (init_leaves_other_modules demo_platform demo_loaded MM_PTR
                                      "plugins/c.so" 0)
    as (t & Et & Hfind & _).
  apply Hfind. intros h symbol Hin.
  change (st_trace demo_loaded ++ t) with t in Et. rewrite <- Et in Hin.
  vm_compute in Hin.
  repeat match goal with
         | H : _ \/ _ |- _ => destruct H as [H | H]
         end; try discriminate Hin; exact Hin.
Defined.

Lemma load_then_unload_restores_witness :
  fst (teardown demo_platform
         (mkEntry "gamma" 31%positive 32%positive 3%positive) 0
         (snd (micro_module_init demo_platform MM_PTR "plugins/c.so" 0
                                 demo_loaded))) = 0 /\
  st_mm (snd (micro_module_exit demo_platform MM_PTR (Some "gamma"%string) 0
                (snd (micro_module_init demo_platform MM_PTR "plugins/c.so" 0
                                        demo_loaded))))
  = st_mm demo_loaded.
Proof.
  split; [reflexivity|].
  assert (H : ~ In "gamma"%string (names (registry demo_loaded))).
  { simpl. intros [H | []]. discriminate H. }
  exact (proj2 (load_then_unload_restores
                  demo_platform demo_loaded
                  (snd (init_load demo_platform "plugins/c.so" demo_loaded))
                  "plugins/c.so" 0 0
                  (mkEntry "gamma" 31%positive 32%positive 3%positive)
                  eq_refl H eq_refl eq_refl)).
Defined.

Lemma unload_twice_not_registered_witness :
  unique_names demo_loaded /\
  fst (micro_module_exit demo_platform MM_PTR (Some "alpha"%string) 0
         (snd (micro_module_exit demo_platform MM_PTR (Some "alpha"%string) 0
                                 demo_loaded)))
  = MICRO_MODULE_ERROR_MODULE_NOT_REGISTERED.
Proof.
  assert (U : unique_names demo_loaded).
  { unfold unique_names. simpl. constructor; [intros []|constructor]. }
  split; [exact U|].
  rewrite (unload_twice_not_registered demo_platform demo_loaded "alpha" 0 0
                                       demo_old_alpha U eq_refl eq_refl).
  reflexivity.
Defined.

Lemma init_all_without_candidates_witness :
  candidates demo_subdirs_entries = [] /\
  fst (micro_module_init_all demo_subdirs MM_PTR "plugins" 0 demo_loaded)
  = MICRO_MODULE_ERROR_CLOSE_MODULES_DIR /\
  skips (st_trace (snd (micro_module_init_all demo_subdirs MM_PTR "plugins" 0
                                              demo_loaded)))
  = ["plugins/old"%string; "plugins/new"%string].
Proof.
  split; [reflexivity|].
  destruct (init_all_without_candidates demo_subdirs demo_loaded "plugins" 0
                                        demo_subdirs_entries eq_refl eq_refl)
    as (_ & rc & Et & R).
  split; [|reflexivity].
  rewrite R. vm_compute in Et. inversion Et. reflexivity.
Defined.

Lemma init_all_closes_the_walker_witness :
  fst (micro_module_init_all example_platform MM_PTR
                             "./example_modules/compiled" 0 demo_empty)
  = MICRO_MODULE_OK /\
  exists mid rc,
    st_trace (snd (micro_module_init_all example_platform MM_PTR
                                         "./example_modules/compiled" 0
                                         demo_empty))
    = EvFtsOpen "./example_modules/compiled"
                (fts_open_result example_platform []
                                 "./example_modules/compiled")
      :: mid ++ [EvFtsClose rc] /\
    attempts mid = ["./example_modules/compiled/example_module1.so"%string;
                    "./example_modules/compiled/example_module2.so"%string].
Proof.
  split; [reflexivity|].
  destruct (init_all_closes_the_walker example_platform demo_empty
                                       "./example_modules/compiled" 0)
    as (mid & rc & Et & _ & _ & Ha).
  exists mid, rc. split; [exact Et|]. exact (Ha eq_refl).
Defined.

Lemma main_returns_zero_witness :
  never_fails example_platform /\
  fst (main example_platform) = MainReturned 0 /\
  registry (snd (main example_platform)) = [].
Proof.
  assert (NF : never_fails example_platform).
  { split; [|split; [|split]].
    - intros tr f a. cbn [init_fn_result example_platform].
      destruct (Pos.eqb f 4); reflexivity.
    - intros. reflexivity.
    - intros. reflexivity.
    - intros. apply Z.le_refl. }
  assert (X : forall p,
             In p ["./example_modules/compiled/example_module1.so"%string;
                   "./example_modules/compiled/example_module2.so"%string] ->
             exports_symbols example_platform p).
  { intros p [<- | [<- | []]]; intros tr lmid; eexists;
      (split; [reflexivity|]); intros tr'; repeat split; discriminate. }
  split; [exact NF|].
  apply (main_returns_zero
           example_platform
           [ mkFTSENT FTS_D 0 "./example_modules/compiled";
             mkFTSENT FTS_F 1 "./example_modules/compiled/example_module1.so";
             mkFTSENT FTS_F 1 "./example_modules/compiled/example_module2.so";
             mkFTSENT FTS_DP 0 "./example_modules/compiled" ]
           "./example_modules/compiled/example_module2.so" NF eq_refl).
  - exact X.
  - apply X. left. reflexivity.
  - right. left. reflexivity.
  - intros tr lmid h tr' H. simpl in H. inversion H. reflexivity.
Defined.

Lemma init_handle_registered_or_closed_witness :
  In (EvDlmopen LM_ID_NEWLM "plugins/b.so" (Some 2%positive))
     (st_trace (snd (micro_module_init demo_platform MM_PTR "plugins/b.so" 0
                                       demo_empty))) /\
  In 2%positive
     (map fst
          (closes (st_trace (snd (micro_module_init demo_platform MM_PTR
                                                    "plugins/b.so" 0
                                                    demo_empty))))).
Proof.
  assert (H : In (EvDlmopen LM_ID_NEWLM "plugins/b.so" (Some 2%positive))
                 (st_trace (snd (micro_module_init demo_platform MM_PTR
                                                   "plugins/b.so" 0 demo_empty))))
    by (left; reflexivity).
  split; [exact H|].
  destruct (init_handle_registered_or_closed
              demo_platform demo_empty "plugins/b.so" 0
              (st_trace (snd (micro_module_init demo_platform MM_PTR
                                                "plugins/b.so" 0 demo_empty)))
              LM_ID_NEWLM 2%positive eq_refl H)
    as [(m & _ & Hf) | [Hc | Hm]].
  - vm_compute in Hf. discriminate Hf.
  - exact Hc.
  - vm_compute in Hm.
    repeat match goal with
           | H : _ \/ _ |- _ => destruct H as [H | H]
           end; try discriminate Hm; contradiction.
Defined.
